(** * UMLS relationship crawler (app.py): embedding and verification

    The development follows [src/app.py]:
    - [Py]   the Python primitives the script relies on (truthiness of
             strings, [str.split], [str.join], f-string rendering, dicts
             that keep insertion order);
    - [Nx]   the part of [networkx.DiGraph] the script uses ([add_edge],
             [nodes()], [edges(data=True)]);
    - [App]  the functions of the script, in a state-and-exception monad
             over the objects they share (the HTTP service, the language
             detector, the graph);
    - [Spec] the notions that the statements are written with;
    - [Examples] services and detectors for concrete runs.
    The theorems come after all definitions.  Response bodies are taken
    with the shapes that the script reads: an object whose ["result"] is
    absent, an object with ["results"], or an array of relation records,
    every field of a record being a string or absent. *)

From Stdlib Require Import String Ascii List ZArith Lia Bool Permutation.
From Stdlib Require Import DecimalString Sorted.
Import ListNotations.

Local Open Scope string_scope.
Local Open Scope Z_scope.

(* ================================================================== *)
(** ** Python primitives *)

Module Py.

(** Truthiness of a [str]: the empty string is falsy. *)
Definition truthy (s : string) : bool :=
  match s with EmptyString => false | String _ _ => true end.

(** [s.split(sep)] for a one-character separator: never the empty list. *)
Fixpoint split (sep : ascii) (s : string) : list string :=
  match s with
  | EmptyString => [EmptyString]
  | String c rest =>
      if Ascii.eqb c sep then EmptyString :: split sep rest
      else match split sep rest with
           | [] => [String c EmptyString]
           | w :: ws => String c w :: ws
           end
  end.

(** [sep.join(parts)]. *)
Definition join (sep : string) (parts : list string) : string :=
  String.concat sep parts.

(** [l[-1]] on a list of strings; [None] stands for IndexError. *)
Fixpoint last_item (l : list string) : option string :=
  match l with
  | [] => None
  | [x] => Some x
  | _ :: tl => last_item tl
  end.

(** [str(x)] inside an f-string, for a value that is [None] or a [str]. *)
Definition fmt (o : option string) : string :=
  match o with None => "None" | Some s => s end.

(** [str(n)] for an [int]. *)
Definition str_of_int (n : Z) : string :=
  NilZero.string_of_int (Z.to_int n).

(** [x in l] for a list of strings. *)
Definition contains (x : string) (l : list string) : bool :=
  existsb (String.eqb x) l.

(** A [dict] with [str] keys, as an association list in insertion order. *)
Definition dict (V : Type) : Type := list (string * V).

Fixpoint dict_get {V} (d : dict V) (k : string) : option V :=
  match d with
  | [] => None
  | (k', v) :: tl => if String.eqb k k' then Some v else dict_get tl k
  end.

Definition dict_has {V} (d : dict V) (k : string) : bool :=
  match dict_get d k with Some _ => true | None => false end.

(** [d[k] = v]: an existing key keeps its place, a new one goes last. *)
Fixpoint dict_set {V} (d : dict V) (k : string) (v : V) : dict V :=
  match d with
  | [] => [(k, v)]
  | (k', v') :: tl =>
      if String.eqb k k' then (k', v) :: tl else (k', v') :: dict_set tl k v
  end.

Definition dict_keys {V} (d : dict V) : list string := map fst d.

End Py.

(* ================================================================== *)
(** ** networkx.DiGraph, as far as the script uses it *)

Module Nx.

(** The attribute dict of an edge.  The only [add_edge] call of the script
    always passes [label], [uri] and [depth], so every edge carries the
    three; [uri] is [info.get("relatedId")], which is [None] when the key
    is absent. *)
Record EdgeAttr := mkAttr {
  label : string;
  uri : option string;
  depth : Z
}.

(** [_succ]: node -> (successor -> attributes).  [_node] gets its keys in
    the same calls and in the same order, so [nodes()] is the key list. *)
Definition DiGraph : Type := Py.dict (Py.dict EdgeAttr).

Definition empty : DiGraph := [].

Definition has_node (g : DiGraph) (n : string) : bool := Py.dict_has g n.

(** [if n not in self._succ: self._succ[n] = {}]. *)
Definition add_node (g : DiGraph) (n : string) : DiGraph :=
  if has_node g n then g else (g ++ [(n, [])])%list.

(** [self._succ[u][v] = datadict], for [u] already a node. *)
Fixpoint set_succ (g : DiGraph) (u v : string) (a : EdgeAttr) : DiGraph :=
  match g with
  | [] => []
  | (n, nbrs) :: tl =>
      if String.eqb u n then (n, Py.dict_set nbrs v a) :: tl
      else (n, nbrs) :: set_succ tl u v a
  end.

(** [G.add_edge(u, v, label=.., uri=.., depth=..)]: both endpoints become
    nodes if they are not, then the attributes of [(u, v)] are updated
    with the three given ones, which replaces all of them. *)
Definition add_edge (g : DiGraph) (u v : string) (a : EdgeAttr) : DiGraph :=
  set_succ (add_node (add_node g u) v) u v a.

(** [G.nodes()], in insertion order. *)
Definition nodes (g : DiGraph) : list string := Py.dict_keys g.

(** [G.edges(data=True)]: for each node in insertion order, its successors
    in insertion order. *)
Definition edges (g : DiGraph) : list (string * string * EdgeAttr) :=
  flat_map (fun '(u, nbrs) => map (fun '(v, a) => (u, v, a)) nbrs) g.

(** [G[u][v]] when the edge exists. *)
Definition edge_data (g : DiGraph) (u v : string) : option EdgeAttr :=
  match Py.dict_get g u with
  | Some nbrs => Py.dict_get nbrs v
  | None => None
  end.

End Nx.

(* ================================================================== *)
(** ** The script *)

Module App.

(** *** What the script exchanges with the outside *)

(** Exceptions the script can meet and never catches. *)
Inductive exn := AttributeError | TypeError | KeyError | IndexError
               | LangDetectException.

(** How a call ends; [OutOfFuel] is an artefact of the bounded model of
    [while] and is shown never to happen ([main_terminates]). *)
Inductive result (A : Type) :=
| Ok (a : A)
| Raise (e : exn)
| OutOfFuel.
Arguments Ok {A} a.
Arguments Raise {A} e.
Arguments OutOfFuel {A}.

(** An element of ["results"] of the search response; a field is [None]
    when its key is absent, and [resource['name']] then raises KeyError. *)
Record Resource := mkResource {
  res_name : option string;
  res_uri : option string
}.

(** A relation record; each field is read with [info.get], which gives
    [None] for an absent key. *)
Record Info := mkInfo {
  relatedIdName : option string;
  relationLabel : option string;
  additionalRelationLabel : option string;
  relatedId : option string
}.

(** The JSON object of a response, by its ["result"] entry: absent, an
    object (empty, or with the one key ["results"]), or an array of
    relation records. *)
Inductive Json :=
| ResultAbsent
| ResultObject (results : option (list Resource))
| ResultArray (items : list Info).

Record Response := mkResponse {
  status_code : Z;
  json : Json
}.

(** What [langdetect.detect] does on a [str]: a language code, or
    LangDetectException (no features in the text). *)
Inductive Detected := Lang (code : string) | NoFeatures.

(** The collaborators.  The service may answer by the requests made before
    (oldest first).  [detect] draws fresh randomness at each call when
    [DetectorFactory.seed] is not set, and the script never sets it: its
    answer is a function of the text and of the call, numbered from 0.
    [spring_layout g dim seed] is the layout that networkx computes. *)
Record Env (Coord : Type) := mkEnv {
  API_KEY : string;
  requests_get : list string -> string -> Response;
  detect : nat -> string -> Detected;
  spring_layout : Nx.DiGraph -> Z -> Z -> string -> Coord * Coord * Coord
}.
Arguments API_KEY {Coord} e.
Arguments requests_get {Coord} e.
Arguments detect {Coord} e.
Arguments spring_layout {Coord} e.

(** The mutable objects: the requests sent so far, the number of [detect]
    calls so far, the graph that [main] creates and [get_relations]
    fills.  [fetches] is a log of the calls of [get_relations]
    (depth, name, uri), kept for the statements only. *)
Record World := mkWorld {
  requested : list string;
  detections : nat;
  fetches : list (Z * string * string);
  graph : Nx.DiGraph
}.

Definition world0 : World := mkWorld [] 0%nat [] Nx.empty.

(** *** State and exceptions *)

Definition M (A : Type) : Type := World -> result A * World.

Definition ret {A} (a : A) : M A := fun w => (Ok a, w).

Definition raise {A} (e : exn) : M A := fun w => (Raise e, w).

Definition bind {A B} (m : M A) (k : A -> M B) : M B :=
  fun w =>
    match m w with
    | (Ok a, w') => k a w'
    | (Raise e, w') => (Raise e, w')
    | (OutOfFuel, w') => (OutOfFuel, w')
    end.

Notation "x <- m ;; k" := (bind m (fun x => k))
  (at level 61, m at next level, right associativity).
Notation "m ;;; k" := (bind m (fun _ => k))
  (at level 61, right associativity).

Definition set_graph (g : Nx.DiGraph) : M unit :=
  fun w => (Ok tt, mkWorld (requested w) (detections w) (fetches w) g).

Definition get_graph : M Nx.DiGraph := fun w => (Ok (graph w), w).

Definition log_fetch (depth : Z) (name uri : string) : M unit :=
  fun w => (Ok tt, mkWorld (requested w) (detections w)
                           (fetches w ++ [(depth, name, uri)]) (graph w)).

(** [graph.add_edge(u, v, label=.., uri=.., depth=..)] on the shared graph. *)
Definition graph_add_edge (u v : string) (a : Nx.EdgeAttr) : M unit :=
  fun w => (Ok tt, mkWorld (requested w) (detections w) (fetches w)
                           (Nx.add_edge (graph w) u v a)).

(** A name of a node with its URI, as queued on the frontier; the URI is
    [info.get("relatedId")] for a child. *)
Definition Kid : Type := string * option string.

(** The traces of the figure. *)
Record Figure (Coord : Type) := mkFigure {
  x_nodes : list Coord;
  y_nodes : list Coord;
  z_nodes : list Coord;
  depth_values : list Z;
  edge_x : list (option Coord);
  edge_y : list (option Coord);
  edge_z : list (option Coord);
  text : list string
}.
Arguments x_nodes {Coord} f.
Arguments y_nodes {Coord} f.
Arguments z_nodes {Coord} f.
Arguments depth_values {Coord} f.
Arguments edge_x {Coord} f.
Arguments edge_y {Coord} f.
Arguments edge_z {Coord} f.
Arguments text {Coord} f.

(** What pressing the button leads to: nothing after the warning of
    [find_uri_from_name], or the listing (also the content of
    relationships.txt) and the figure. *)
Inductive Outcome (Coord : Type) :=
| NoCrawl
| Generated (relationships : list string) (relationships_txt : string)
            (fig : Figure Coord).
Arguments NoCrawl {Coord}.
Arguments Generated {Coord} relationships relationships_txt fig.

Definition newline : string := String (ascii_of_nat 10) EmptyString.

Section Script.

Context {Coord : Type} (E : Env Coord).

(** [detect(text)] on a [str]; each call is numbered. *)
Definition detect_call (text : string) : M string :=
  fun w =>
    let w' := mkWorld (requested w) (S (detections w)) (fetches w)
                      (graph w) in
    match detect E (detections w) text with
    | Lang code => (Ok code, w')
    | NoFeatures => (Raise LangDetectException, w')
    end.

(** [get_request]: [None] unless the status is 200. *)
Definition get_request (uri : string) : M (option Json) :=
  fun w =>
    let search_url := uri ++ "&apiKey=" ++ API_KEY E in
    let response := requests_get E (requested w) search_url in
    let w' := mkWorld (requested w ++ [search_url]) (detections w)
                      (fetches w) (graph w) in
    if status_code response =? 200 then (Ok (Some (json response)), w')
    else (Ok None, w').

Definition find_uri_from_name (term_name : string)
  : M (option string * option string) :=
  let query_term_name := Py.join "+" (Py.split " " term_name) in
  let uri := "https://uts-ws.nlm.nih.gov/rest/search/current?string="
             ++ query_term_name in
  search_data <- get_request uri ;;
  match search_data with
  | None => ret (None, None)
  | Some ResultAbsent => ret (None, None)
  | Some (ResultArray _) => raise AttributeError
  | Some (ResultObject None) => ret (None, None)
  | Some (ResultObject (Some [])) => ret (None, None)
  | Some (ResultObject (Some (resource :: _))) =>
      match res_name resource, res_uri resource with
      | Some name, Some uri => ret (Some name, Some uri)
      | _, _ => raise KeyError
      end
  end.

(** The body of [for info in ...] of [get_relations], over the records
    that are left; [kids] is the list built so far.  A record without
    ["relatedIdName"] hands [None] to [detect], which raises TypeError. *)
Fixpoint relations_loop (depth : Z) (name : string) (items : list Info)
         (kids : list Kid) : M (list Kid) :=
  match items with
  | [] => ret kids
  | info :: rest =>
      match relatedIdName info with
      | None => raise TypeError
      | Some related =>
          lang <- detect_call related ;;
          if String.eqb lang "en" then
            graph_add_edge name related
              (Nx.mkAttr
                 (Py.fmt (relationLabel info) ++ "("
                  ++ Py.fmt (additionalRelationLabel info) ++ ")")
                 (relatedId info) depth) ;;;
            relations_loop depth name rest
              (kids ++ [(related, relatedId info)])%list
          else relations_loop depth name rest kids
      end
  end.

(** [get_relations]; [json_data.get] on [None] raises AttributeError,
    and so does [info.get] on the key of an object. *)
Definition get_relations (depth : Z) (name uri : string)
           (page_number : Z) : M (list Kid) :=
  log_fetch depth name uri ;;;
  let relations_uri :=
    uri ++ "/relations?pageNumber=" ++ Py.str_of_int page_number in
  json_data <- get_request relations_uri ;;
  match json_data with
  | None => raise AttributeError
  | Some ResultAbsent => ret []
  | Some (ResultObject None) => ret []
  | Some (ResultObject (Some _)) => raise AttributeError
  | Some (ResultArray items) => relations_loop depth name items []
  end.

(** The body of [for _ in range(len(frontier))] of [main]: one entry is
    taken from the left; [uri.split] on [None] raises AttributeError. *)
Definition expand (max_depth depth : Z) (frontier : list Kid)
           (expanded_uris : list string)
  : M (list Kid * list string) :=
  match frontier with
  | [] => raise IndexError
  | (name, None) :: _ => raise AttributeError
  | (name, Some uri) :: frontier' =>
      match Py.last_item (Py.split "/" uri) with
      | None => raise IndexError
      | Some entity_id =>
          if (depth <=? max_depth)
             && negb (Py.contains entity_id expanded_uris)
          then
            kids <- get_relations depth name uri 1 ;;
            ret ((frontier' ++ kids)%list,
                 (expanded_uris ++ [entity_id])%list)
          else ret (frontier', expanded_uris)
      end
  end.

(** [for _ in range(n)]: the bound is read once, before the first turn. *)
Fixpoint for_range (n : nat) (max_depth depth : Z) (frontier : list Kid)
         (expanded_uris : list string) : M (list Kid * list string) :=
  match n with
  | O => ret (frontier, expanded_uris)
  | S n' =>
      st <- expand max_depth depth frontier expanded_uris ;;
      for_range n' max_depth depth (fst st) (snd st)
  end.

(** [while depth <= max_depth], with a bound on the number of turns. *)
Fixpoint while_depth (fuel : nat) (max_depth depth : Z)
         (frontier : list Kid) (expanded_uris : list string) : M unit :=
  if depth <=? max_depth then
    match fuel with
    | O => fun w => (OutOfFuel, w)
    | S fuel' =>
        st <- for_range (length frontier) max_depth depth frontier
                        expanded_uris ;;
        while_depth fuel' max_depth (depth + 1) (fst st) (snd st)
    end
  else ret tt.

(** The dict [node_depth] of [create_3d_graph] after the loop over the
    edges: a node keeps the depth of the first edge that names it. *)
Fixpoint node_depth_loop (es : list (string * string * Nx.EdgeAttr))
         (node_depth : Py.dict Z) : Py.dict Z :=
  match es with
  | [] => node_depth
  | (u, v, data) :: rest =>
      let depth := Nx.depth data in
      let nd1 := if Py.dict_has node_depth u then node_depth
                 else Py.dict_set node_depth u depth in
      let nd2 := if Py.dict_has nd1 v then nd1
                 else Py.dict_set nd1 v depth in
      node_depth_loop rest nd2
  end.

(** [node_depth.get(node, 0)]. *)
Definition depth_value (node_depth : Py.dict Z) (node : string) : Z :=
  match Py.dict_get node_depth node with Some d => d | None => 0 end.

(** [create_3d_graph], up to the traces handed to plotly. *)
Definition create_3d_graph (g : Nx.DiGraph) : Figure Coord :=
  let pos := spring_layout E g 3 42 in
  let node_depth := node_depth_loop (Nx.edges g) [] in
  let ends (proj : Coord * Coord * Coord -> Coord) :=
    flat_map (fun '(u, v, _) =>
                [Some (proj (pos u)); Some (proj (pos v)); None])
             (Nx.edges g) in
  mkFigure Coord
    (map (fun node => fst (fst (pos node))) (Nx.nodes g))
    (map (fun node => snd (fst (pos node))) (Nx.nodes g))
    (map (fun node => snd (pos node)) (Nx.nodes g))
    (map (depth_value node_depth) (Nx.nodes g))
    (ends (fun p => fst (fst p)))
    (ends (fun p => snd (fst p)))
    (ends (fun p => snd p))
    (Nx.nodes g).

(** One line of the listing. *)
Definition relationship (e : string * string * Nx.EdgeAttr) : string :=
  let '(u, v, data) := e in
  u ++ " --> " ++ v ++ " (Relation: " ++ Nx.label data ++ ")".

(** The list [relationships] of [main]. *)
Definition relationships_of (g : Nx.DiGraph) : list string :=
  map relationship (Nx.edges g).

(** [main], once the button is pressed. *)
Definition main (term_name : string) (max_depth : Z) : M (Outcome Coord) :=
  start <- find_uri_from_name term_name ;;
  match start with
  | (Some name_start, Some uri_start) =>
      if Py.truthy name_start && Py.truthy uri_start then
        set_graph Nx.empty ;;;
        while_depth (Z.to_nat (max_depth + 1)) max_depth 0
                    [(name_start, Some uri_start)] [] ;;;
        g <- get_graph ;;
        let relationships := relationships_of g in
        ret (Generated relationships (Py.join newline relationships)
                       (create_3d_graph g))
      else ret NoCrawl
  | _ => ret NoCrawl
  end.

End Script.

End App.

(* ================================================================== *)
(** ** What the statements are written with *)

Module Spec.

Import App.

Definition Edge : Type := string * string * Nx.EdgeAttr.

(** *** Depth colour *)

(** [e] touches node [n]. *)
Definition incident (n : string) (e : Edge) : bool :=
  let '(u, v, _) := e in String.eqb n u || String.eqb n v.

(** The least [depth] among the edges that touch [n], 0 when there is
    none. *)
Definition min_incident_depth (g : Nx.DiGraph) (n : string) : Z :=
  match map (fun e : Edge => Nx.depth (snd e))
            (filter (incident n) (Nx.edges g)) with
  | [] => 0
  | d :: ds => fold_left Z.min ds d
  end.

(** The [depth] of the first edge, in iteration order, that touches [n],
    0 when there is none. *)
Definition first_incident_depth (es : list Edge) (n : string) : Z :=
  match filter (incident n) es with
  | [] => 0
  | e :: _ => Nx.depth (snd e)
  end.

(** *** The language check of one record *)

Inductive Verdict := Keep | Exclude | Raises (e : exn).

(** What the [n]-th call of [detect] decides for a record. *)
Definition language_check {Coord} (E : Env Coord) (n : nat) (info : Info)
  : Verdict :=
  match relatedIdName info with
  | None => Raises TypeError
  | Some related =>
      match detect E n related with
      | NoFeatures => Raises LangDetectException
      | Lang code => if String.eqb code "en" then Keep else Exclude
      end
  end.

(** The records kept up to the first failing check, and that failure;
    [n] numbers the next call of [detect]. *)
Fixpoint screened {Coord} (E : Env Coord) (n : nat) (items : list Info)
  : list Info * option exn :=
  match items with
  | [] => ([], None)
  | info :: rest =>
      match language_check E n info with
      | Raises e => ([], Some e)
      | Exclude => screened E (S n) rest
      | Keep => let (kept, failure) := screened E (S n) rest in
                (info :: kept, failure)
      end
  end.

(** The edge and the child that a kept record stands for. *)
Definition edge_of (depth : Z) (info : Info) : string * Nx.EdgeAttr :=
  (Py.fmt (relatedIdName info),
   Nx.mkAttr (Py.fmt (relationLabel info) ++ "("
              ++ Py.fmt (additionalRelationLabel info) ++ ")")
             (relatedId info) depth).

Definition kid_of (info : Info) : Kid :=
  (Py.fmt (relatedIdName info), relatedId info).

Definition record_all (depth : Z) (name : string) (kept : list Info)
           (g : Nx.DiGraph) : Nx.DiGraph :=
  fold_left (fun g info => Nx.add_edge g name (fst (edge_of depth info))
                                       (snd (edge_of depth info)))
            kept g.

(** *** Graphs that a run can hold *)

(** Graphs obtained from the empty one by [add_edge] calls whose
    arguments satisfy [P]. *)
Inductive recorded (P : string -> string -> Nx.EdgeAttr -> Prop)
  : Nx.DiGraph -> Prop :=
| recorded_empty : recorded P Nx.empty
| recorded_add g u v a :
    recorded P g -> P u v a -> recorded P (Nx.add_edge g u v a).

(** The dicts of the graph have no repeated key. *)
Definition well_formed (g : Nx.DiGraph) : Prop :=
  NoDup (Nx.nodes g) /\ Forall (fun entry => NoDup (Py.dict_keys (snd entry))) g.

Definition any_edge (_ _ : string) (_ : Nx.EdgeAttr) : Prop := True.

(** The ordered pairs that have an edge, in iteration order. *)
Definition edge_pairs (g : Nx.DiGraph) : list (string * string) :=
  map (fun e : Edge => (fst (fst e), snd (fst e))) (Nx.edges g).

(** The entity id that [main] derives from the URI of a fetch. *)
Definition fetched_id (f : Z * string * string) : option string :=
  Py.last_item (Py.split "/" (snd f)).

(** *** Two runs *)

(** Same key, same answers of the service, same layout routine. *)
Definition same_service {Coord} (E1 E2 : Env Coord) : Prop :=
  API_KEY E1 = API_KEY E2
  /\ (forall past url, requests_get E1 past url = requests_get E2 past url)
  /\ (forall g dim seed node,
         spring_layout E1 g dim seed node = spring_layout E2 g dim seed node).

(** *** Reading the listing back *)

Definition Triple : Type := string * string * string.

Definition triples (g : Nx.DiGraph) : list Triple :=
  map (fun e : Edge => (fst (fst e), snd (fst e), Nx.label (snd e)))
      (Nx.edges g).

Fixpoint prefixb (p s : string) : bool :=
  match p, s with
  | EmptyString, _ => true
  | String a p', String b s' => Ascii.eqb a b && prefixb p' s'
  | String _ _, EmptyString => false
  end.

(** [p] occurs in [s]. *)
Fixpoint occurs (p s : string) : bool :=
  match s with
  | EmptyString => prefixb p EmptyString
  | String _ s' => prefixb p s || occurs p s'
  end.

Fixpoint skip (n : nat) (s : string) : string :=
  match n, s with
  | O, _ => s
  | S n', String _ s' => skip n' s'
  | S _, EmptyString => EmptyString
  end.

(** [s] cut at the first occurrence of [sep]: what is before, what is
    after. *)
Fixpoint cut (sep s : string) : option (string * string) :=
  match s with
  | EmptyString => None
  | String c s' =>
      if prefixb sep s then Some (EmptyString, skip (String.length sep) s)
      else match cut sep s' with
           | Some (a, b) => Some (String c a, b)
           | None => None
           end
  end.

(** [s] without its last character, which has to be [")"]. *)
Fixpoint strip_close (s : string) : option string :=
  match s with
  | EmptyString => None
  | String c EmptyString =>
      if Ascii.eqb c ")" then Some EmptyString else None
  | String c s' => option_map (String c) (strip_close s')
  end.

Definition parse_line (line : string) : option Triple :=
  match cut " --> " line with
  | Some (u, rest) =>
      match cut " (Relation: " rest with
      | Some (v, rest') =>
          match strip_close rest' with
          | Some l => Some (u, v, l)
          | None => None
          end
      | None => None
      end
  | None => None
  end.

(** A reader of the listing: one triple per line that has the form of a
    line of the listing. *)
Definition parse_listing (txt : string) : list Triple :=
  match txt with
  | EmptyString => []
  | _ => flat_map (fun line => match parse_line line with
                               | Some t => [t]
                               | None => []
                               end)
                  (Py.split (ascii_of_nat 10) txt)
  end.

(** The names and the label of [e] hold no line break, its source holds
    no [" -->"] and its target no [" (Relation:"]. *)
Definition plain (e : Edge) : bool :=
  let '(u, v, a) := e in
  negb (occurs newline u) && negb (occurs " -->" u)
  && negb (occurs newline v) && negb (occurs " (Relation:" v)
  && negb (occurs newline (Nx.label a)).

(** *** Properties of computations *)

(** [m] keeps [I] true of the world, however it ends. *)
Definition keeps (I : World -> Prop) {A} (m : M A) : Prop :=
  forall w, I w -> I (snd (m w)).

(** [m] ends by itself: the bound of [while] is never the reason. *)
Definition total {A} (m : M A) : Prop :=
  forall w, fst (m w) <> OutOfFuel.

(** The edges that a run with bound [max_depth] may record: the depth is
    within the bound and some call of [detect] found the target English. *)
Definition run_edge {Coord} (E : Env Coord) (max_depth : Z)
           (u v : string) (a : Nx.EdgeAttr) : Prop :=
  Nx.depth a <= max_depth /\ exists n, detect E n v = Lang "en".

(** The graph of the world was built by such recordings. *)
Definition graph_recorded {Coord} (E : Env Coord) (max_depth : Z)
           (w : World) : Prop :=
  recorded (run_edge E max_depth) (graph w).

(** *** Further notions *)

(** [s] with every [c] replaced by [d]. *)
Fixpoint replace_char (c d : ascii) (s : string) : string :=
  match s with
  | EmptyString => EmptyString
  | String x rest =>
      String (if Ascii.eqb x c then d else x) (replace_char c d rest)
  end.

(** The URL that [find_uri_from_name] hands to [requests.get]. *)
Definition search_request {Coord} (E : Env Coord) (term_name : string)
  : string :=
  ("https://uts-ws.nlm.nih.gov/rest/search/current?string="
   ++ Py.join "+" (Py.split " " term_name))
  ++ "&apiKey=" ++ API_KEY E.

(** The URL that [get_relations] hands to [requests.get] for page 1. *)
Definition page_request {Coord} (E : Env Coord) (uri : string) : string :=
  (uri ++ "/relations?pageNumber=" ++ Py.str_of_int 1)
  ++ "&apiKey=" ++ API_KEY E.

Definition fetch_depth (f : Z * string * string) : Z := fst (fst f).

(** The requests are those of [base], then one page request per fetch. *)
Definition requests_follow {Coord} (E : Env Coord) (base : list string)
           (w : World) : Prop :=
  requested w
  = (base ++ map (fun f => page_request E (snd f)) (fetches w))%list.

(** The log starts with [base]. *)
Definition fetches_extend (base : list (Z * string * string)) (w : World)
  : Prop :=
  exists rest, fetches w = (base ++ rest)%list.

(** The depths on the log never decrease and lie between 0 and [d]. *)
Definition fetches_ascend (d : Z) (w : World) : Prop :=
  StronglySorted Z.le (map fetch_depth (fetches w))
  /\ Forall (fun x => 0 <= x <= d) (map fetch_depth (fetches w)).

(** Every edge was recorded by a fetch of its source at its depth. *)
Definition edge_fetched (w : World) (u v : string) (a : Nx.EdgeAttr) : Prop :=
  exists uri, In (Nx.depth a, u, uri) (fetches w).

Definition edges_fetched (w : World) : Prop :=
  recorded (edge_fetched w) (graph w).





(** The depths on the log lie between 0 and [max_depth]. *)
Definition fetches_within (max_depth : Z) (w : World) : Prop :=
  Forall (fun x => 0 <= x <= max_depth) (map fetch_depth (fetches w)).


(** Some edge of [g] leads to [name]. *)
Definition is_target (g : Nx.DiGraph) (name : string) : Prop :=
  exists p a, In (p, name, a) (Nx.edges g).

(** [k] is the seed or its name is the target of an edge. *)
Definition discovered (seed : Kid) (w : World) (k : Kid) : Prop :=
  k = seed \/ is_target (graph w) (fst k).

(** Every fetch on the log is the one of the seed or of a discovered
    node. *)
Definition crawl_follows (seed : Kid) (w : World) : Prop :=
  well_formed (graph w)
  /\ Forall (fun f : Z * string * string =>
               discovered seed w (snd (fst f), Some (snd f)))
            (fetches w).

(** *** Recordings and runs compared *)

(** The last of the records [kept] whose name is [v]. *)
Fixpoint last_record (v : string) (kept : list Info) : option Info :=
  match kept with
  | [] => None
  | info :: rest =>
      match last_record v rest with
      | Some later => Some later
      | None =>
          if String.eqb v (Py.fmt (relatedIdName info)) then Some info
          else None
      end
  end.

(** [w'] comes after [w]: the requests of [w] and then more, and no fewer
    calls of [detect]. *)
Definition extends (w w' : World) : Prop :=
  (exists rest, requested w' = (requested w ++ rest)%list)
  /\ (detections w <= detections w')%nat.

(** The computation only adds requests and calls. *)
Definition grows {A} (m : M A) : Prop := forall w, extends w (snd (m w)).

(** [E1] and [E2] have the same key, answer alike every request on the log
    of [final], made after the requests before it, answer alike the calls
    of [detect] that [final] counts, and lay a graph out alike in dimension
    3 with the seed 42. *)
Definition same_answers_in {Coord} (final : World) (E1 E2 : Env Coord)
  : Prop :=
  API_KEY E1 = API_KEY E2
  /\ (forall past url rest,
         requested final = (past ++ url :: rest)%list ->
         requests_get E1 past url = requests_get E2 past url)
  /\ (forall n text,
         (n < detections final)%nat -> detect E1 n text = detect E2 n text)
  /\ (forall g node,
         spring_layout E1 g 3 42 node = spring_layout E2 g 3 42 node).

End Spec.

(* ================================================================== *)
(** ** Services and detectors for the examples *)

Module Examples.

Import App.

Definition search_url (query : string) : string :=
  "https://uts-ws.nlm.nih.gov/rest/search/current?string=" ++ query
  ++ "&apiKey=k".

Definition page_url (uri : string) : string :=
  uri ++ "/relations?pageNumber=1&apiKey=k".

Definition not_found : Response := mkResponse 404 ResultAbsent.

(** A service that answers by the URL alone. *)
Definition serve (pages : list (string * Response)) (_ : list string)
           (url : string) : Response :=
  match Py.dict_get pages url with Some r => r | None => not_found end.

Definition found (name uri : string) : Response :=
  mkResponse 200 (ResultObject (Some [mkResource (Some name) (Some uri)])).

Definition page (items : list Info) : Response :=
  mkResponse 200 (ResultArray items).

Definition rel (name uri : string) : Info :=
  mkInfo (Some name) (Some "RO") (Some "related_to") (Some uri).

(** A detector that finds no features in the empty text and English in
    every other one. *)
Definition english_unless_empty (_ : nat) (s : string) : Detected :=
  if Py.truthy s then Lang "en" else NoFeatures.

Definition always (code : string) (_ : nat) (_ : string) : Detected :=
  Lang code.

Definition flat (_ : Nx.DiGraph) (_ _ : Z) (_ : string) : unit * unit * unit :=
  (tt, tt, tt).

Definition env (pages : list (string * Response))
           (d : nat -> string -> Detected) : Env unit :=
  mkEnv unit "k" (serve pages) d flat.

(** Scenario A of the specification. *)
Definition env_infarction : Env unit :=
  env [(search_url "Myocardial+infarction",
        found "Myocardial infarction" "https://uts/C0027051");
       (page_url "https://uts/C0027051",
        page [mkInfo (Some "Acute coronary syndrome") (Some "related_to")
                     (Some "") (Some "https://uts/C0002")])]
      english_unless_empty.

(** The relations page of the seed answers with status 500. *)
Definition env_page_error : Env unit :=
  env [(search_url "Myocardial+infarction",
        found "Myocardial infarction" "https://uts/C0027051");
       (page_url "https://uts/C0027051", mkResponse 500 ResultAbsent)]
      english_unless_empty.

(** A page with an English record, a German one, one with an empty name
    and one more English record. *)
Definition mixed_page : list Info :=
  [rel "Heart attack" "u/2"; rel "Herzinfarkt" "u/3"; rel "" "u/4";
   rel "Chest pain" "u/5"].

Definition detect_mixed (n : nat) (s : string) : Detected :=
  if String.eqb s "Herzinfarkt" then Lang "de" else english_unless_empty n s.

Definition env_mixed : Env unit :=
  env [(search_url "S", found "S" "u/1"); (page_url "u/1", page mixed_page)]
      detect_mixed.

(** The same page without the record with the empty name. *)
Definition env_clean : Env unit :=
  env [(search_url "S", found "S" "u/1");
       (page_url "u/1",
        page [rel "Heart attack" "u/2"; rel "Herzinfarkt" "u/3"])]
      detect_mixed.

(** Two concepts, u/1 and u/3, with the display name S. *)
Definition env_homonym : Env unit :=
  env [(search_url "S", found "S" "u/1");
       (page_url "u/1", page [rel "X" "u/2"]);
       (page_url "u/2", page [rel "S" "u/3"]);
       (page_url "u/3", page [rel "X" "u/2"])]
      (always "en").

(** One service, two runs of the detector on the short name "Angina". *)
Definition angina_pages : list (string * Response) :=
  [(search_url "S", found "S" "u/1");
   (page_url "u/1", page [rel "Angina" "u/2"])].

Definition env_angina_en : Env unit := env angina_pages (always "en").
Definition env_angina_it : Env unit := env angina_pages (always "it").

(** Two graphs with the same listing. *)
Definition env_arrow_source : Env unit :=
  env [(search_url "S", found "A --> B" "u/1");
       (page_url "u/1", page [rel "C" "u/2"])]
      (always "en").

Definition env_arrow_target : Env unit :=
  env [(search_url "S", found "A" "u/1");
       (page_url "u/1", page [rel "B --> C" "u/2"])]
      (always "en").

(** The search finds nothing; the search fails. *)
Definition env_no_result : Env unit :=
  env [(search_url "S", mkResponse 200 (ResultObject (Some [])))]
      (always "en").

Definition env_search_error : Env unit := env [] (always "en").



(** Two environments that differ where a run with [max_depth = 0] never
    looks: the second detector answers Italian from its second call on, the
    second service fails once two requests have been made, and the layouts
    agree for the seed 42 only. *)
Definition layout_by_seed (_ : Nx.DiGraph) (_ seed : Z) (_ : string)
  : Z * Z * Z :=
  (seed, seed, seed).

Definition layout_fixed (_ : Nx.DiGraph) (_ _ : Z) (_ : string) : Z * Z * Z :=
  (42, 42, 42).

Definition serve_twice (pages : list (string * Response))
           (past : list string) (url : string) : Response :=
  match past with
  | _ :: _ :: _ => mkResponse 500 ResultAbsent
  | _ => serve pages past url
  end.

Definition english_once (n : nat) (_ : string) : Detected :=
  match n with O => Lang "en" | S _ => Lang "it" end.

Definition env_first_run : Env Z :=
  mkEnv Z "k" (serve angina_pages) (always "en") layout_by_seed.

Definition env_second_run : Env Z :=
  mkEnv Z "k" (serve_twice angina_pages) english_once layout_fixed.

End Examples.

(* ================================================================== *)
(** ** Theorems *)

Import App Spec.

(** *** Dicts and graphs *)

Lemma dict_get_set_same {V} (d : Py.dict V) k v :
  Py.dict_get (Py.dict_set d k v) k = Some v.
Proof.
  induction d as [|[k' v'] d IH]; simpl.
  - now rewrite String.eqb_refl.
  - destruct (String.eqb k k') eqn:Hk; simpl; rewrite Hk; auto.
Qed.

Lemma dict_get_set_other {V} (d : Py.dict V) k k' v :
  k' <> k -> Py.dict_get (Py.dict_set d k v) k' = Py.dict_get d k'.
Proof.
  intros Hne. induction d as [|[k0 v0] d IH]; simpl.
  - destruct (String.eqb_spec k' k); congruence.
  - destruct (String.eqb_spec k k0) as [->|Hk]; simpl.
    + destruct (String.eqb_spec k' k0); congruence.
    + now rewrite IH.
Qed.

Lemma dict_get_In {V} (d : Py.dict V) k v :
  Py.dict_get d k = Some v -> In (k, v) d.
Proof.
  induction d as [|[k' v'] d IH]; simpl; [discriminate|].
  destruct (String.eqb_spec k k') as [->|Hk]; intros H.
  - inversion H; auto.
  - auto.
Qed.

Lemma dict_get_None {V} (d : Py.dict V) k :
  Py.dict_get d k = None <-> ~ In k (Py.dict_keys d).
Proof.
  induction d as [|[k' v'] d IH]; simpl.
  - tauto.
  - destruct (String.eqb_spec k k') as [->|Hk]; split; intros H.
    + discriminate.
    + exfalso; apply H; auto.
    + intros [Heq|Hin]; [congruence|]. now apply IH in H.
    + apply IH. intros Hin; apply H; auto.
Qed.

Lemma dict_get_NoDup {V} (d : Py.dict V) k v :
  NoDup (Py.dict_keys d) -> In (k, v) d -> Py.dict_get d k = Some v.
Proof.
  induction d as [|[k' v'] d IH]; simpl; [tauto|].
  intros Hnd [Heq|Hin].
  - inversion Heq; subst. now rewrite String.eqb_refl.
  - inversion Hnd as [|? ? Hnotin Hnd']; subst.
    destruct (String.eqb_spec k k') as [->|Hk]; auto.
    exfalso; apply Hnotin. change (In (fst (k', v)) (map fst d)).
    now apply in_map.
Qed.

Lemma dict_keys_set {V} (d : Py.dict V) k v :
  Py.dict_keys (Py.dict_set d k v)
  = if Py.dict_has d k then Py.dict_keys d else (Py.dict_keys d ++ [k])%list.
Proof.
  unfold Py.dict_has.
  induction d as [|[k' v'] d IH]; simpl; auto.
  destruct (String.eqb_spec k k') as [->|Hk]; simpl; auto.
  rewrite IH. now destruct (Py.dict_get d k).
Qed.

Lemma dict_has_keys {V} (d : Py.dict V) k :
  Py.dict_has d k = true <-> In k (Py.dict_keys d).
Proof.
  unfold Py.dict_has. destruct (Py.dict_get d k) eqn:Hg.
  - split; auto. intros _. apply dict_get_In in Hg.
    change (In (fst (k, v)) (map fst d)). now apply in_map.
  - split; [discriminate|]. intros Hin. now apply dict_get_None in Hg.
Qed.

Lemma dict_set_NoDup {V} (d : Py.dict V) k v :
  NoDup (Py.dict_keys d) -> NoDup (Py.dict_keys (Py.dict_set d k v)).
Proof.
  intros Hnd. rewrite dict_keys_set.
  destruct (Py.dict_has d k) eqn:Hh; auto.
  apply NoDup_app; auto.
  - repeat constructor; auto.
  - intros x Hx [<-|[]]. apply dict_has_keys in Hx. congruence.
Qed.

Lemma dict_get_app {V} (d : Py.dict V) k v k' :
  Py.dict_get (d ++ [(k, v)])%list k'
  = match Py.dict_get d k' with
    | Some x => Some x
    | None => if String.eqb k' k then Some v else None
    end.
Proof.
  induction d as [|[k0 v0] d IH]; simpl; auto.
  destruct (String.eqb k' k0); auto.
Qed.

Lemma edge_data_add_node g n u v :
  Nx.edge_data (Nx.add_node g n) u v = Nx.edge_data g u v.
Proof.
  unfold Nx.add_node, Nx.has_node, Py.dict_has, Nx.edge_data.
  destruct (Py.dict_get g n) eqn:Hn; auto.
  rewrite dict_get_app. destruct (Py.dict_get g u); auto.
  destruct (String.eqb u n); auto.
Qed.

Lemma has_node_add_node g n m :
  Nx.has_node (Nx.add_node g n) m = Nx.has_node g m || String.eqb m n.
Proof.
  unfold Nx.add_node, Nx.has_node, Py.dict_has.
  destruct (Py.dict_get g n) eqn:Hn.
  - destruct (String.eqb_spec m n) as [->|Hm].
    + rewrite Hn. reflexivity.
    + now rewrite orb_false_r.
  - rewrite dict_get_app. destruct (Py.dict_get g m); auto.
    destruct (String.eqb m n); auto.
Qed.

Lemma edge_data_set_succ g u v a u' v' :
  Nx.has_node g u = true ->
  Nx.edge_data (Nx.set_succ g u v a) u' v'
  = if String.eqb u' u && String.eqb v' v then Some a
    else Nx.edge_data g u' v'.
Proof.
  unfold Nx.has_node, Py.dict_has, Nx.edge_data.
  induction g as [|[n nbrs] g IH]; simpl; [discriminate|].
  destruct (String.eqb_spec u n) as [Hu|Hu]; simpl.
  - subst n. intros _. destruct (String.eqb_spec u' u) as [Hu'|Hu']; simpl.
    + destruct (String.eqb_spec v' v) as [Hv'|Hv'].
      * subst v'. apply dict_get_set_same.
      * now apply dict_get_set_other.
    + reflexivity.
  - intros Hg. destruct (String.eqb_spec u' n) as [Hu'|Hu']; simpl.
    + subst u'. destruct (String.eqb_spec n u); [congruence|]. reflexivity.
    + now apply IH.
Qed.

Lemma edge_data_add_edge g u v a u' v' :
  Nx.edge_data (Nx.add_edge g u v a) u' v'
  = if String.eqb u' u && String.eqb v' v then Some a
    else Nx.edge_data g u' v'.
Proof.
  unfold Nx.add_edge. rewrite edge_data_set_succ.
  - now rewrite !edge_data_add_node.
  - rewrite !has_node_add_node, String.eqb_refl. now rewrite orb_true_r.
Qed.

Lemma nodes_add_node g n :
  Nx.nodes (Nx.add_node g n)
  = if Nx.has_node g n then Nx.nodes g else (Nx.nodes g ++ [n])%list.
Proof.
  unfold Nx.add_node, Nx.nodes, Py.dict_keys.
  destruct (Nx.has_node g n); auto. now rewrite map_app.
Qed.

Lemma nodes_set_succ g u v a :
  Nx.nodes (Nx.set_succ g u v a) = Nx.nodes g.
Proof.
  unfold Nx.nodes, Py.dict_keys.
  induction g as [|[n nbrs] g IH]; simpl; auto.
  destruct (String.eqb u n); simpl; congruence.
Qed.

Lemma in_nodes_add_node g n m :
  In m (Nx.nodes (Nx.add_node g n)) <-> In m (Nx.nodes g) \/ m = n.
Proof.
  rewrite nodes_add_node. destruct (Nx.has_node g n) eqn:Hn.
  - split; auto. intros [H| ->]; auto. now apply dict_has_keys.
  - rewrite in_app_iff. simpl. intuition congruence.
Qed.

Lemma in_nodes_add_edge g u v a m :
  In m (Nx.nodes (Nx.add_edge g u v a))
  <-> In m (Nx.nodes g) \/ m = u \/ m = v.
Proof.
  unfold Nx.add_edge. rewrite nodes_set_succ, !in_nodes_add_node. tauto.
Qed.

Lemma in_edges g u v a :
  In (u, v, a) (Nx.edges g) <-> exists nbrs, In (u, nbrs) g /\ In (v, a) nbrs.
Proof.
  unfold Nx.edges. rewrite in_flat_map. split.
  - intros [[n nbrs] [Hin Hm]]. apply in_map_iff in Hm.
    destruct Hm as [[v' a'] [Heq Hin']]. inversion Heq; subst. eauto.
  - intros [nbrs [Hin Hin']]. exists (u, nbrs). split; auto.
    apply in_map_iff. exists (v, a). auto.
Qed.

Lemma well_formed_empty : well_formed Nx.empty.
Proof. split; constructor. Qed.

Lemma well_formed_add_node g n : well_formed g -> well_formed (Nx.add_node g n).
Proof.
  intros [Hn Hf]. split.
  - rewrite nodes_add_node. destruct (Nx.has_node g n) eqn:Hh; auto.
    apply NoDup_app; auto.
    + repeat constructor; auto.
    + intros x Hx [<-|[]]. apply dict_has_keys in Hx.
      unfold Nx.has_node in Hh. congruence.
  - unfold Nx.add_node. destruct (Nx.has_node g n); auto.
    apply Forall_app. split; auto. repeat constructor.
Qed.

Lemma well_formed_set_succ g u v a :
  well_formed g -> well_formed (Nx.set_succ g u v a).
Proof.
  intros [Hn Hf]. split.
  - now rewrite nodes_set_succ.
  - clear Hn. induction Hf as [|[n nbrs] g Hh Hf IH]; simpl; auto.
    destruct (String.eqb u n); constructor; auto.
    simpl in *. now apply dict_set_NoDup.
Qed.

Lemma well_formed_add_edge g u v a :
  well_formed g -> well_formed (Nx.add_edge g u v a).
Proof.
  intros H. unfold Nx.add_edge.
  now apply well_formed_set_succ, well_formed_add_node, well_formed_add_node.
Qed.

Lemma recorded_well_formed P g : recorded P g -> well_formed g.
Proof.
  induction 1; [apply well_formed_empty | now apply well_formed_add_edge].
Qed.

Lemma recorded_weaken (P Q : string -> string -> Nx.EdgeAttr -> Prop) g :
  (forall u v a, P u v a -> Q u v a) -> recorded P g -> recorded Q g.
Proof.
  intros HPQ. induction 1; constructor; auto.
Qed.

(** In a well-formed graph the edge list and [G[u][v]] say the same. *)
Lemma in_edges_edge_data g u v a :
  well_formed g -> (In (u, v, a) (Nx.edges g) <-> Nx.edge_data g u v = Some a).
Proof.
  intros [Hn Hf]. rewrite in_edges. unfold Nx.edge_data. split.
  - intros [nbrs [Hin Hin']].
    rewrite (dict_get_NoDup g u nbrs Hn Hin).
    apply dict_get_NoDup; auto.
    rewrite Forall_forall in Hf. apply (Hf (u, nbrs) Hin).
  - destruct (Py.dict_get g u) as [nbrs|] eqn:Hg; [|discriminate].
    intros H. exists nbrs. split; now apply dict_get_In.
Qed.

Lemma edge_pairs_cons n nbrs g :
  edge_pairs ((n, nbrs) :: g)
  = (map (fun v => (n, v)) (Py.dict_keys nbrs) ++ edge_pairs g)%list.
Proof.
  unfold edge_pairs, Nx.edges. simpl. rewrite map_app. f_equal.
  unfold Py.dict_keys. rewrite !map_map. apply map_ext. now intros [v a].
Qed.

Lemma in_edge_pairs_source g u v :
  In (u, v) (edge_pairs g) -> In u (Nx.nodes g).
Proof.
  unfold edge_pairs. rewrite in_map_iff. intros [[[u' v'] a] [Heq Hin]].
  simpl in Heq. inversion Heq; subst. apply in_edges in Hin.
  destruct Hin as [nbrs [Hin _]].
  change (In (fst (u, nbrs)) (map fst g)). now apply in_map.
Qed.

Lemma NoDup_map_inj {A B} (f : A -> B) (l : list A) :
  (forall x y, f x = f y -> x = y) -> NoDup l -> NoDup (map f l).
Proof.
  intros Hinj. induction 1 as [|x l Hx Hnd IH]; simpl; constructor; auto.
  intros Hin. apply in_map_iff in Hin. destruct Hin as [y [Hy Hin]].
  apply Hinj in Hy. congruence.
Qed.

Lemma well_formed_edge_pairs g : well_formed g -> NoDup (edge_pairs g).
Proof.
  intros [Hn Hf]. induction g as [|[n nbrs] g IH]; [constructor|].
  rewrite edge_pairs_cons.
  inversion Hn as [|? ? Hnotin Hn']; subst.
  inversion Hf as [|? ? Hh Hf']; subst. simpl in Hh.
  apply NoDup_app.
  - apply NoDup_map_inj; auto. intros x y Hxy. congruence.
  - now apply IH.
  - intros [u v] Hin1 Hin2. apply in_map_iff in Hin1.
    destruct Hin1 as [v' [Heq _]]. inversion Heq; subst.
    apply in_edge_pairs_source in Hin2. now apply Hnotin.
Qed.

(** Every edge of a recorded graph was passed to [add_edge]. *)
Lemma recorded_edges P g :
  recorded P g -> forall u v a, In (u, v, a) (Nx.edges g) -> P u v a.
Proof.
  induction 1 as [|g u0 v0 a0 Hrec IH HP]; intros u v a Hin.
  - destruct Hin.
  - apply in_edges_edge_data in Hin;
      [|eapply well_formed_add_edge, recorded_well_formed; eauto].
    rewrite edge_data_add_edge in Hin.
    destruct (String.eqb_spec u u0) as [->|Hu];
      destruct (String.eqb_spec v v0) as [->|Hv]; simpl in Hin;
      try (inversion Hin; subst; assumption);
      apply IH, in_edges_edge_data; eauto using recorded_well_formed.
Qed.

(** Every node of a recorded graph is an end of one of its edges. *)
Lemma recorded_nodes P g :
  recorded P g ->
  forall n, In n (Nx.nodes g) ->
            exists u v a, In (u, v, a) (Nx.edges g) /\ (n = u \/ n = v).
Proof.
  induction 1 as [|g u0 v0 a0 Hrec IH HP]; intros n Hin.
  - destruct Hin.
  - assert (Hwf : well_formed (Nx.add_edge g u0 v0 a0))
      by (eapply well_formed_add_edge, recorded_well_formed; eauto).
    assert (Hnew : In (u0, v0, a0) (Nx.edges (Nx.add_edge g u0 v0 a0))).
    { apply in_edges_edge_data; auto. rewrite edge_data_add_edge.
      now rewrite !String.eqb_refl. }
    apply in_nodes_add_edge in Hin. destruct Hin as [Hin|Hin].
    + destruct (IH n Hin) as (u & v & a & He & Hn).
      destruct (String.eqb u u0 && String.eqb v v0) eqn:Hsame.
      * apply andb_true_iff in Hsame. destruct Hsame as [Hu Hv].
        apply String.eqb_eq in Hu, Hv. subst. eauto.
      * exists u, v, a. split; auto. apply in_edges_edge_data; auto.
        rewrite edge_data_add_edge, Hsame.
        apply in_edges_edge_data; eauto using recorded_well_formed.
    + exists u0, v0, a0. tauto.
Qed.

(** *** The monad *)

Lemma keeps_ret (I : World -> Prop) {A} (a : A) : keeps I (ret a).
Proof. intros w H; exact H. Qed.

Lemma keeps_raise (I : World -> Prop) {A} e : keeps I (@raise A e).
Proof. intros w H; exact H. Qed.

Lemma keeps_bind (I : World -> Prop) {A B} (m : M A) (k : A -> M B) :
  keeps I m -> (forall a, keeps I (k a)) -> keeps I (bind m k).
Proof.
  intros Hm Hk w Hw. unfold bind. specialize (Hm w Hw).
  destruct (m w) as [[a|e|] w']; simpl in *; auto. now apply Hk.
Qed.

Lemma total_ret {A} (a : A) : total (ret a).
Proof. intros w; discriminate. Qed.

Lemma total_raise {A} e : total (@raise A e).
Proof. intros w; discriminate. Qed.

Lemma total_bind {A B} (m : M A) (k : A -> M B) :
  total m -> (forall a, total (k a)) -> total (bind m k).
Proof.
  intros Hm Hk w. unfold bind. specialize (Hm w).
  destruct (m w) as [[a|e|] w']; simpl in *; try discriminate; auto.
  apply Hk.
Qed.

Section Run.

Context {Coord : Type} (E : Env Coord).

(** *** One request *)

Lemma get_request_world uri w :
  snd (get_request E uri w)
  = mkWorld (requested w ++ [(uri ++ "&apiKey=" ++ API_KEY E)%string])%list
            (detections w) (fetches w) (graph w).
Proof.
  unfold get_request.
  now destruct (status_code (requests_get E (requested w) _) =? 200).
Qed.

Lemma get_request_result uri w :
  fst (get_request E uri w)
  = let response :=
      requests_get E (requested w) (uri ++ "&apiKey=" ++ API_KEY E) in
    if status_code response =? 200 then Ok (Some (json response))
    else Ok None.
Proof.
  unfold get_request.
  now destruct (status_code (requests_get E (requested w) _) =? 200).
Qed.

Lemma total_get_request uri : total (get_request E uri).
Proof.
  intros w. rewrite get_request_result. simpl.
  destruct (status_code _ =? 200); discriminate.
Qed.

(** *** The loop over the records of a page *)

(** One turn of the loop, on the world. *)
Lemma relations_loop_cons depth name info rest kids w :
  relations_loop E depth name (info :: rest) kids w
  = match relatedIdName info with
    | None => (Raise TypeError, w)
    | Some related =>
        let checked := mkWorld (requested w) (S (detections w)) (fetches w)
                               (graph w) in
        match detect E (detections w) related with
        | NoFeatures => (Raise LangDetectException, checked)
        | Lang code =>
            if String.eqb code "en" then
              relations_loop E depth name rest
                (kids ++ [kid_of info])%list
                (mkWorld (requested w) (S (detections w)) (fetches w)
                         (Nx.add_edge (graph w) name (fst (edge_of depth info))
                                      (snd (edge_of depth info))))
            else relations_loop E depth name rest kids checked
        end
    end.
Proof.
  simpl. unfold kid_of, edge_of.
  destruct (relatedIdName info) as [related|]; [|reflexivity].
  unfold bind, detect_call. simpl.
  destruct (detect E (detections w) related) as [code|]; [|reflexivity].
  destruct (String.eqb code "en"); reflexivity.
Qed.

(** The loop returns the children of the records kept and has recorded
    their edges, or raises what the first failing check raises, the records
    kept before it being recorded. *)
Lemma relations_loop_screened depth name items :
  forall kids w,
    let r := relations_loop E depth name items kids w in
    let s := screened E (detections w) items in
    fst r = match snd s with
            | None => Ok (kids ++ map kid_of (fst s))%list
            | Some e => Raise e
            end
    /\ graph (snd r) = record_all depth name (fst s) (graph w)
    /\ fetches (snd r) = fetches w
    /\ requested (snd r) = requested w.
Proof.
  induction items as [|info rest IH]; intros kids w; cbv zeta.
  - simpl. rewrite app_nil_r. auto.
  - rewrite relations_loop_cons. cbn [screened]. unfold language_check.
    destruct (relatedIdName info) as [related|] eqn:Hname; simpl; auto.
    destruct (detect E (detections w) related) as [code|] eqn:Hd; simpl; auto.
    destruct (String.eqb code "en") eqn:Hen.
    + match goal with
      | |- context [relations_loop E depth name rest ?k ?w'] =>
          specialize (IH k w')
      end.
      cbv zeta in IH. simpl detections in IH. simpl fetches in IH.
      simpl requested in IH. simpl graph in IH.
      destruct IH as (Hr & Hg & Hf & Hq).
      destruct (screened E (S (detections w)) rest) as [kept failure].
      cbn [fst snd] in *.
      split; [|split; [|split]].
      * etransitivity; [exact Hr|].
        destruct failure; auto. cbn [map]. now rewrite <- app_assoc.
      * etransitivity; [exact Hg|]. reflexivity.
      * exact Hf.
      * exact Hq.
    + match goal with
      | |- context [relations_loop E depth name rest ?k ?w'] =>
          specialize (IH k w')
      end.
      exact IH.
Qed.

Lemma total_relations_loop depth name items :
  forall kids, total (relations_loop E depth name items kids).
Proof.
  intros kids w.
  destruct (relations_loop_screened depth name items kids w) as [Hr _].
  simpl in Hr. rewrite Hr.
  destruct (snd (screened E (detections w) items)); discriminate.
Qed.

(** The records kept were found English by some call of [detect]. *)
Lemma screened_kept n items info :
  In info (fst (screened E n items)) ->
  exists m, detect E m (Py.fmt (relatedIdName info)) = Lang "en".
Proof.
  revert n. induction items as [|i rest IH]; intros n; simpl; [tauto|].
  unfold language_check.
  destruct (relatedIdName i) as [related|] eqn:Hname; simpl; [|tauto].
  destruct (detect E n related) as [code|] eqn:Hd; simpl; [|tauto].
  destruct (String.eqb_spec code "en") as [->|Hne].
  - destruct (screened E (S n) rest) as [kept failure] eqn:Hs. simpl.
    intros [<-|Hin].
    + exists n. now rewrite Hname.
    + apply (IH (S n)). now rewrite Hs.
  - apply IH.
Qed.

Lemma recorded_record_all P depth name kept g :
  recorded P g ->
  (forall info, In info kept ->
                P name (fst (edge_of depth info)) (snd (edge_of depth info))) ->
  recorded P (record_all depth name kept g).
Proof.
  revert g. induction kept as [|info kept IH]; intros g Hg HP; simpl; auto.
  apply IH.
  - constructor; auto. apply HP. now left.
  - intros i Hi. apply HP. now right.
Qed.

(** *** One fetch *)

Lemma get_relations_unfold depth name uri page_number w :
  get_relations E depth name uri page_number w
  = let url := (uri ++ "/relations?pageNumber=" ++ Py.str_of_int page_number)
                 ++ "&apiKey=" ++ API_KEY E in
    let response := requests_get E (requested w) url in
    let asked := mkWorld (requested w ++ [url])%list (detections w)
                         (fetches w ++ [(depth, name, uri)])%list (graph w) in
    if status_code response =? 200 then
      match json response with
      | ResultAbsent => (Ok [], asked)
      | ResultObject None => (Ok [], asked)
      | ResultObject (Some _) => (Raise AttributeError, asked)
      | ResultArray items => relations_loop E depth name items [] asked
      end
    else (Raise AttributeError, asked).
Proof.
  unfold get_relations, bind, log_fetch, get_request. simpl.
  destruct (status_code _ =? 200); [|reflexivity].
  destruct (json _) as [|[l|]|items]; reflexivity.
Qed.

Lemma get_relations_fetches depth name uri page_number w :
  fetches (snd (get_relations E depth name uri page_number w))
  = (fetches w ++ [(depth, name, uri)])%list.
Proof.
  rewrite get_relations_unfold. cbv zeta.
  destruct (status_code _ =? 200); [|reflexivity].
  destruct (json _) as [|[l|]|items]; try reflexivity.
  match goal with
  | |- context [relations_loop E depth name items ?k ?w'] =>
      destruct (relations_loop_screened depth name items k w')
        as (_ & _ & Hf & _)
  end.
  exact Hf.
Qed.

Lemma total_get_relations depth name uri page_number :
  total (get_relations E depth name uri page_number).
Proof.
  intros w. rewrite get_relations_unfold. cbv zeta.
  destruct (status_code _ =? 200); [|discriminate].
  destruct (json _) as [|[l|]|items]; try discriminate.
  apply total_relations_loop.
Qed.

Lemma get_relations_recorded max_depth depth name uri page_number :
  depth <= max_depth ->
  keeps (graph_recorded E max_depth)
        (get_relations E depth name uri page_number).
Proof.
  intros Hd w Hw. unfold graph_recorded in *.
  rewrite get_relations_unfold. cbv zeta.
  destruct (status_code _ =? 200); [|exact Hw].
  destruct (json _) as [|[l|]|items]; try exact Hw.
  match goal with
  | |- context [relations_loop E depth name items ?k ?w'] =>
      destruct (relations_loop_screened depth name items k w')
        as (_ & Hg & _ & _)
  end.
  rewrite Hg. simpl. apply recorded_record_all; auto.
  intros info Hin. split; [simpl; lia|].
  now apply screened_kept in Hin.
Qed.

(** *** The loops of [main] *)

Lemma expand_recorded max_depth depth frontier expanded_uris :
  keeps (graph_recorded E max_depth)
        (expand E max_depth depth frontier expanded_uris).
Proof.
  unfold expand. destruct frontier as [|[name [uri|]] frontier'];
    try apply keeps_raise.
  destruct (Py.last_item (Py.split "/" uri)) as [entity_id|];
    [|apply keeps_raise].
  destruct (depth <=? max_depth) eqn:Hd; simpl; [|apply keeps_ret].
  destruct (negb (Py.contains entity_id expanded_uris)); [|apply keeps_ret].
  apply keeps_bind; [|intros; apply keeps_ret].
  apply get_relations_recorded. now apply Z.leb_le.
Qed.

Lemma for_range_recorded max_depth depth n :
  forall frontier expanded_uris,
    keeps (graph_recorded E max_depth)
          (for_range E n max_depth depth frontier expanded_uris).
Proof.
  induction n as [|n IH]; intros frontier expanded_uris; simpl.
  - apply keeps_ret.
  - apply keeps_bind; [apply expand_recorded|]. intros st. apply IH.
Qed.

Lemma while_depth_recorded max_depth fuel :
  forall depth frontier expanded_uris,
    keeps (graph_recorded E max_depth)
          (while_depth E fuel max_depth depth frontier expanded_uris).
Proof.
  induction fuel as [|fuel IH]; intros depth frontier expanded_uris; simpl;
    destruct (depth <=? max_depth); try apply keeps_ret.
  - intros w Hw; exact Hw.
  - apply keeps_bind; [apply for_range_recorded|]. intros st. apply IH.
Qed.

Lemma total_expand max_depth depth frontier expanded_uris :
  total (expand E max_depth depth frontier expanded_uris).
Proof.
  unfold expand. destruct frontier as [|[name [uri|]] frontier'];
    try apply total_raise.
  destruct (Py.last_item (Py.split "/" uri)) as [entity_id|];
    [|apply total_raise].
  destruct ((depth <=? max_depth) && _); [|apply total_ret].
  apply total_bind; [apply total_get_relations|intros; apply total_ret].
Qed.

Lemma total_for_range max_depth depth n :
  forall frontier expanded_uris,
    total (for_range E n max_depth depth frontier expanded_uris).
Proof.
  induction n as [|n IH]; intros frontier expanded_uris; simpl.
  - apply total_ret.
  - apply total_bind; [apply total_expand|]. intros st. apply IH.
Qed.

(** With one unit of fuel per level that is left, [while] ends by its own
    test. *)
Lemma total_while_depth max_depth fuel :
  forall depth frontier expanded_uris,
    (Z.to_nat (max_depth + 1 - depth) <= fuel)%nat ->
    total (while_depth E fuel max_depth depth frontier expanded_uris).
Proof.
  induction fuel as [|fuel IH]; intros depth frontier expanded_uris Hfuel;
    simpl; destruct (depth <=? max_depth) eqn:Hd; try apply total_ret.
  - apply Z.leb_le in Hd. lia.
  - apply Z.leb_le in Hd.
    apply total_bind; [apply total_for_range|]. intros st. apply IH. lia.
Qed.

(** *** The search and [main] *)

Lemma find_uri_world term_name w :
  snd (find_uri_from_name E term_name w)
  = mkWorld (requested w
             ++ [(("https://uts-ws.nlm.nih.gov/rest/search/current?string="
                   ++ Py.join "+" (Py.split " " term_name))
                  ++ "&apiKey=" ++ API_KEY E)%string])%list
            (detections w) (fetches w) (graph w).
Proof.
  unfold find_uri_from_name, bind.
  match goal with
  | |- context [get_request E ?u w] =>
      pose proof (get_request_world u w) as Hw;
      pose proof (get_request_result u w) as Hr;
      destruct (get_request E u w) as [r w1]
  end.
  simpl in Hw, Hr. subst w1.
  destruct (status_code _ =? 200); subst r; [|reflexivity].
  destruct (json _) as [|[[|resource l]|]|items]; try reflexivity.
  destruct (res_name resource), (res_uri resource); reflexivity.
Qed.

Lemma total_find_uri term_name : total (find_uri_from_name E term_name).
Proof.
  unfold find_uri_from_name. apply total_bind; [apply total_get_request|].
  intros [[|[[|resource l]|]|items]|];
    try apply total_ret; try apply total_raise.
  destruct (res_name resource), (res_uri resource);
    try apply total_ret; apply total_raise.
Qed.

(** How [main] ends: without a crawl, in the world that the search leaves,
    or with the crawl from the seed that the search gave, on a new graph. *)
Lemma main_run term_name max_depth w :
  let found := find_uri_from_name E term_name w in
  (snd (main E term_name max_depth w) = snd found
   /\ (fst (main E term_name max_depth w) = Ok NoCrawl
       \/ exists e, fst (main E term_name max_depth w) = Raise e))
  \/ exists name_start uri_start,
      fst found = Ok (Some name_start, Some uri_start)
      /\ let w1 := mkWorld (requested (snd found)) (detections (snd found))
                           (fetches (snd found)) Nx.empty in
         let crawl := while_depth E (Z.to_nat (max_depth + 1)) max_depth 0
                                  [(name_start, Some uri_start)] [] w1 in
         snd (main E term_name max_depth w) = snd crawl
         /\ fst (main E term_name max_depth w)
            = match fst crawl with
              | Ok _ =>
                  Ok (Generated
                        (relationships_of (graph (snd crawl)))
                        (Py.join newline
                                 (relationships_of (graph (snd crawl))))
                        (create_3d_graph E (graph (snd crawl))))
              | Raise e => Raise e
              | OutOfFuel => OutOfFuel
              end.
Proof.
  cbv zeta. unfold main, bind.
  pose proof (total_find_uri term_name w) as Htot.
  destruct (find_uri_from_name E term_name w) as [[[n u]|e|] w0]; simpl in *.
  - destruct n as [name_start|]; [|left; auto].
    destruct u as [uri_start|]; [|left; auto].
    destruct (Py.truthy name_start && Py.truthy uri_start); [|left; auto].
    right. exists name_start, uri_start. split; auto.
    unfold set_graph, get_graph, ret.
    match goal with
    | |- context [while_depth E ?f ?m ?d ?fr ?ex ?w1] =>
        destruct (while_depth E f m d fr ex w1) as [[[]|e|] w2]
    end; simpl; auto.
  - left. eauto.
  - congruence.
Qed.

Theorem main_terminates term_name max_depth :
  total (main E term_name max_depth).
Proof.
  intros w. destruct (main_run term_name max_depth w)
    as [[_ [H|[e H]]]|(n & u & _ & _ & H)]; rewrite H; try discriminate.
  match goal with
  | |- context [while_depth E ?f ?m ?d ?fr ?ex ?w1] =>
      pose proof (total_while_depth m f d fr ex) as Htot;
      specialize (Htot ltac:(lia) w1);
      destruct (fst (while_depth E f m d fr ex w1))
  end; congruence.
Qed.

(** Whatever the outcome of a run from the initial world, its graph was
    built by recordings within the depth bound. *)
Lemma main_recorded term_name max_depth :
  graph_recorded E max_depth (snd (main E term_name max_depth world0)).
Proof.
  destruct (main_run term_name max_depth world0)
    as [[H _]|(n & u & _ & H & _)]; rewrite H.
  - rewrite find_uri_world. constructor.
  - apply while_depth_recorded. constructor.
Qed.

(** The graph of a completed crawl, from any world. *)
Lemma main_generated term_name max_depth w rels txt fig w' :
  main E term_name max_depth w = (Ok (Generated rels txt fig), w') ->
  graph_recorded E max_depth w'
  /\ rels = relationships_of (graph w')
  /\ txt = Py.join newline rels
  /\ fig = create_3d_graph E (graph w').
Proof.
  intros Hmain.
  destruct (main_run term_name max_depth w)
    as [[_ [H|[e H]]]|(n & u & _ & Hw & H)];
    rewrite Hmain in *; simpl in *; try discriminate.
  subst w'.
  match type of H with
  | context [while_depth E ?f ?m ?d ?fr ?ex ?w1] =>
      pose proof (while_depth_recorded m f d fr ex w1) as Hrec;
      destruct (fst (while_depth E f m d fr ex w1)); try discriminate
  end.
  inversion H; subst. split; [|auto].
  apply Hrec. constructor.
Qed.

(** *** The log of the fetches *)

Lemma NoDup_map_Some (l : list string) : NoDup (map Some l) <-> NoDup l.
Proof.
  split.
  - apply NoDup_map_inv.
  - apply NoDup_map_inj. congruence.
Qed.

Lemma contains_In x l : Py.contains x l = true <-> In x l.
Proof.
  unfold Py.contains. rewrite existsb_exists. split.
  - intros [y [Hin Heq]]. apply String.eqb_eq in Heq. now subst.
  - intros Hin. exists x. split; auto. apply String.eqb_refl.
Qed.

(** The ids on the log are the ids in [expanded_uris], in the same order,
    whenever a turn of the loop ends; they never repeat. *)
Lemma expand_fetches max_depth depth frontier expanded_uris w :
  NoDup expanded_uris ->
  map fetched_id (fetches w) = map Some expanded_uris ->
  let r := expand E max_depth depth frontier expanded_uris w in
  NoDup (map fetched_id (fetches (snd r)))
  /\ forall st, fst r = Ok st ->
                NoDup (snd st)
                /\ map fetched_id (fetches (snd r)) = map Some (snd st).
Proof.
  intros Hnd Hlog. cbv zeta.
  assert (Hsame : NoDup (map fetched_id (fetches w)))
    by (rewrite Hlog; now apply NoDup_map_Some).
  unfold expand. destruct frontier as [|[name [uri|]] frontier'];
    try (split; [exact Hsame|discriminate]).
  destruct (Py.last_item (Py.split "/" uri)) as [entity_id|] eqn:Hid;
    [|split; [exact Hsame|discriminate]].
  destruct ((depth <=? max_depth)
            && negb (Py.contains entity_id expanded_uris)) eqn:Hc.
  - apply andb_true_iff in Hc. destruct Hc as [_ Hnew].
    apply negb_true_iff in Hnew.
    assert (Hnotin : ~ In entity_id expanded_uris).
    { intros Hin. apply contains_In in Hin. congruence. }
    assert (Hnd' : NoDup (expanded_uris ++ [entity_id])).
    { apply NoDup_app; auto.
      - repeat constructor; auto.
      - intros x Hx [<-|[]]. auto. }
    assert (Hlog' : map fetched_id (fetches w ++ [(depth, name, uri)])
                    = map Some (expanded_uris ++ [entity_id])).
    { rewrite !map_app, Hlog. simpl. unfold fetched_id. simpl.
      now rewrite Hid. }
    unfold bind.
    pose proof (get_relations_fetches depth name uri 1 w) as Hf.
    destruct (get_relations E depth name uri 1 w) as [[kids|e|] w1];
      simpl in *; rewrite Hf, Hlog'.
    + split; [now apply NoDup_map_Some|].
      intros st Hst. inversion Hst; subst. simpl. auto.
    + split; [now apply NoDup_map_Some|discriminate].
    + split; [now apply NoDup_map_Some|discriminate].
  - simpl. split; auto. intros st Hst. inversion Hst; subst. auto.
Qed.

Lemma for_range_fetches max_depth depth n :
  forall frontier expanded_uris w,
    NoDup expanded_uris ->
    map fetched_id (fetches w) = map Some expanded_uris ->
    let r := for_range E n max_depth depth frontier expanded_uris w in
    NoDup (map fetched_id (fetches (snd r)))
    /\ forall st, fst r = Ok st ->
                  NoDup (snd st)
                  /\ map fetched_id (fetches (snd r)) = map Some (snd st).
Proof.
  induction n as [|n IH]; intros frontier expanded_uris w Hnd Hlog; cbv zeta.
  - simpl. split.
    + rewrite Hlog. now apply NoDup_map_Some.
    + intros st Hst. inversion Hst; subst. auto.
  - simpl. unfold bind.
    destruct (expand_fetches max_depth depth frontier expanded_uris w Hnd Hlog)
      as [Hall Hok].
    destruct (expand E max_depth depth frontier expanded_uris w)
      as [[st|e|] w1]; simpl in *.
    + destruct (Hok st eq_refl) as [Hnd1 Hlog1]. now apply IH.
    + split; [exact Hall|discriminate].
    + split; [exact Hall|discriminate].
Qed.

Lemma while_depth_fetches max_depth fuel :
  forall depth frontier expanded_uris w,
    NoDup expanded_uris ->
    map fetched_id (fetches w) = map Some expanded_uris ->
    NoDup (map fetched_id
               (fetches (snd (while_depth E fuel max_depth depth frontier
                                          expanded_uris w)))).
Proof.
  induction fuel as [|fuel IH]; intros depth frontier expanded_uris w Hnd Hlog;
    simpl; destruct (depth <=? max_depth); simpl;
    try (rewrite Hlog; now apply NoDup_map_Some).
  unfold bind.
  destruct (for_range_fetches max_depth depth (length frontier) frontier
                              expanded_uris w Hnd Hlog) as [Hall Hok].
  destruct (for_range E (length frontier) max_depth depth frontier
                      expanded_uris w) as [[st|e|] w1]; simpl in *; auto.
  destruct (Hok st eq_refl) as [Hnd1 Hlog1]. now apply IH.
Qed.

(** *** The depth colour *)

Lemma depth_value_set node_depth k d n :
  Py.dict_has node_depth k = false ->
  depth_value (Py.dict_set node_depth k d) n
  = if Py.dict_has node_depth n then depth_value node_depth n
    else if String.eqb n k then d else 0.
Proof.
  unfold depth_value, Py.dict_has. intros Hk.
  destruct (String.eqb_spec n k) as [->|Hn].
  - rewrite dict_get_set_same.
    destruct (Py.dict_get node_depth k); [discriminate|reflexivity].
  - rewrite dict_get_set_other by auto.
    now destruct (Py.dict_get node_depth n).
Qed.

Lemma dict_has_set {V} (d : Py.dict V) k v n :
  Py.dict_has (Py.dict_set d k v) n = Py.dict_has d n || String.eqb n k.
Proof.
  unfold Py.dict_has. destruct (String.eqb_spec n k) as [->|Hn].
  - rewrite dict_get_set_same. now rewrite orb_true_r.
  - rewrite dict_get_set_other by auto. now rewrite orb_false_r.
Qed.

(** After the loop, a node that had no entry has the depth of the first
    edge that names it. *)
Lemma node_depth_loop_first es :
  forall node_depth n,
    depth_value (node_depth_loop es node_depth) n
    = if Py.dict_has node_depth n then depth_value node_depth n
      else first_incident_depth es n.
Proof.
  induction es as [|[[u v] data] es IH]; intros node_depth n.
  - simpl. unfold first_incident_depth, depth_value, Py.dict_has. simpl.
    now destruct (Py.dict_get node_depth n).
  - cbn [node_depth_loop]. rewrite IH.
    unfold first_incident_depth. cbn [filter incident snd].
    destruct (Py.dict_has node_depth u) eqn:Hu;
      match goal with
      | |- context [Py.dict_has ?nd1 v] =>
          destruct (Py.dict_has nd1 v) eqn:Hv
      end;
      repeat (first [rewrite dict_has_set
                    | rewrite depth_value_set by assumption]);
      try rewrite dict_has_set in Hv;
      destruct (Py.dict_has node_depth n) eqn:Hn;
      destruct (String.eqb_spec n u) as [Hnu|Hnu];
      destruct (String.eqb_spec n v) as [Hnv|Hnv];
      subst; simpl in *;
      try rewrite Hn in *; simpl in *;
      try congruence; try reflexivity;
      try (apply String.eqb_eq in Hv; congruence).
Qed.

Lemma screened_checked n items info :
  In info (fst (screened E n items)) ->
  exists m, language_check E m info = Keep.
Proof.
  revert n. induction items as [|i rest IH]; intros n; simpl; [tauto|].
  destruct (language_check E n i) eqn:Hc; simpl; [|apply IH|tauto].
  destruct (screened E (S n) rest) as [kept failure] eqn:Hs. simpl.
  intros [<-|Hin]; [eauto|]. apply (IH (S n)). now rewrite Hs.
Qed.

Lemma screened_failure n items e :
  snd (screened E n items) = Some e ->
  exists m info, In info items /\ language_check E m info = Raises e.
Proof.
  revert n. induction items as [|i rest IH]; intros n; simpl; [discriminate|].
  destruct (language_check E n i) eqn:Hc; simpl.
  - destruct (screened E (S n) rest) as [kept failure] eqn:Hs. simpl.
    intros ->. destruct (IH (S n)) as (m & info & Hin & Hm).
    + now rewrite Hs.
    + eauto.
  - intros H. destruct (IH (S n) H) as (m & info & Hin & Hm). eauto.
  - intros H. inversion H; subst. eauto.
Qed.

(** *** The claims on one run *)

(** C2, as the code has it: the fetch of a page of records keeps the
    records that the language check finds English, records their edges and
    returns their children; a record found in another language is left out
    and the fetch goes on; the first record on which the check raises (no
    features in the name, or no name) makes the fetch raise that exception,
    the records kept before it being recorded. *)
Theorem language_check_decides_fetch depth name uri page_number w items :
  requests_get E (requested w)
    ((uri ++ "/relations?pageNumber=" ++ Py.str_of_int page_number)
       ++ "&apiKey=" ++ API_KEY E)
  = mkResponse 200 (ResultArray items) ->
  let r := get_relations E depth name uri page_number w in
  let s := screened E (detections w) items in
  fst r = match snd s with
          | None => Ok (map kid_of (fst s))
          | Some e => Raise e
          end
  /\ graph (snd r) = record_all depth name (fst s) (graph w)
  /\ (forall info, In info (fst s) -> exists n, language_check E n info = Keep)
  /\ (forall e, snd s = Some e ->
                exists n info, In info items /\ language_check E n info = Raises e).
Proof.
  intros Hresp. cbv zeta. rewrite get_relations_unfold. cbv zeta.
  rewrite Hresp. simpl status_code. simpl json.
  change (200 =? 200) with true. cbv iota.
  match goal with
  | |- context [relations_loop E depth name items ?k ?w'] =>
      destruct (relations_loop_screened depth name items k w')
        as (Hr & Hg & _ & _)
  end.
  simpl in Hr, Hg. split; [exact Hr|]. split; [exact Hg|]. split.
  - intros info. apply screened_checked.
  - intros e. apply screened_failure.
Qed.

(** C3, as the code has it: the depth colour of a node is the depth of the
    first edge, in the iteration order of the edges, that has the node as
    source or target, and 0 for a node that no edge names. *)
Theorem depth_colour_is_first_incident_depth g :
  depth_values (create_3d_graph E g)
  = map (first_incident_depth (Nx.edges g)) (Nx.nodes g).
Proof.
  unfold create_3d_graph. simpl. apply map_ext. intros n.
  now rewrite node_depth_loop_first.
Qed.

(** C4: every edge of the graph of a crawl that ran to completion carries a
    depth of at most [max_depth]. *)
Theorem edge_depth_within_bound term_name max_depth w rels txt fig w' u v a :
  main E term_name max_depth w = (Ok (Generated rels txt fig), w') ->
  In (u, v, a) (Nx.edges (graph w')) ->
  Nx.depth a <= max_depth.
Proof.
  intros Hmain Hin. apply main_generated in Hmain.
  destruct Hmain as [Hrec _].
  apply (recorded_edges _ _ Hrec) in Hin. apply Hin.
Qed.

(** C5: in a run, the entity ids (last segment of the URI) of the calls of
    [get_relations] are pairwise distinct: no id is fetched twice, however
    often it is queued. *)
Theorem entity_id_fetched_once term_name max_depth :
  NoDup (map fetched_id
             (fetches (snd (main E term_name max_depth world0)))).
Proof.
  destruct (main_run term_name max_depth world0)
    as [[H _]|(n & u & _ & H & _)]; rewrite H.
  - rewrite find_uri_world. constructor.
  - apply while_depth_fetches; [constructor|].
    rewrite find_uri_world. reflexivity.
Qed.

(** C9: when the search call does not answer with status 200, or answers
    with an empty ["results"] array, [find_uri_from_name] returns
    [(None, None)] in place of a name and a URI, [main] starts no crawl, and
    no relation is fetched: the search is the only request made. *)
Theorem term_not_found_starts_no_crawl term_name max_depth w :
  let url := ("https://uts-ws.nlm.nih.gov/rest/search/current?string="
              ++ Py.join "+" (Py.split " " term_name))
             ++ "&apiKey=" ++ API_KEY E in
  status_code (requests_get E (requested w) url) <> 200
  \/ json (requests_get E (requested w) url) = ResultObject (Some []) ->
  fst (find_uri_from_name E term_name w) = Ok (None, None)
  /\ fst (main E term_name max_depth w) = Ok NoCrawl
  /\ fetches (snd (main E term_name max_depth w)) = fetches w
  /\ graph (snd (main E term_name max_depth w)) = graph w
  /\ requested (snd (main E term_name max_depth w))
     = (requested w ++ [url])%list.
Proof.
  cbv zeta. intros Hfail.
  assert (Hfind : find_uri_from_name E term_name w
                  = (Ok (None, None), snd (find_uri_from_name E term_name w))).
  { unfold find_uri_from_name, bind, get_request.
    destruct (status_code _ =? 200) eqn:Hs; [|reflexivity].
    destruct Hfail as [Hne|Hjson].
    - apply Z.eqb_eq in Hs. contradiction.
    - unfold API_KEY in *. rewrite Hjson. reflexivity. }
  assert (Hmain : main E term_name max_depth w
                  = (Ok NoCrawl, snd (find_uri_from_name E term_name w))).
  { unfold main, bind. rewrite Hfind. reflexivity. }
  rewrite Hmain, Hfind. simpl fst. simpl snd.
  rewrite find_uri_world. simpl. auto.
Qed.

(** C10: after a completed crawl every node of the graph is the source or
    the target of one of its edges; a graph without edges has no node, and
    the listing is then empty; this is so when no call of the language
    check answers English. *)
Theorem nodes_are_edge_ends term_name max_depth w rels txt fig w' :
  main E term_name max_depth w = (Ok (Generated rels txt fig), w') ->
  (forall n, In n (Nx.nodes (graph w')) ->
             exists u v a, In (u, v, a) (Nx.edges (graph w'))
                           /\ (n = u \/ n = v))
  /\ (Nx.edges (graph w') = [] ->
      Nx.nodes (graph w') = [] /\ rels = [] /\ txt = "")
  /\ ((forall n s, detect E n s <> Lang "en") -> Nx.edges (graph w') = []).
Proof.
  intros Hmain. apply main_generated in Hmain.
  destruct Hmain as (Hrec & Hrels & Htxt & _).
  pose proof (recorded_nodes _ _ Hrec) as Hnodes.
  split; [exact Hnodes|]. split.
  - intros Hnil. rewrite Hnil in Hnodes.
    assert (Hn : Nx.nodes (graph w') = []).
    { destruct (Nx.nodes (graph w')) as [|n l]; auto.
      destruct (Hnodes n (or_introl eq_refl)) as (u & v & a & [] & _). }
    subst. unfold relationships_of. rewrite Hnil. auto.
  - intros Hnone. unfold graph_recorded in Hrec.
    destruct Hrec as [|g u v a _ [_ [n Hn]]]; [reflexivity|].
    now apply Hnone in Hn.
Qed.

End Run.

(** *** One edge per ordered pair *)

(** What [add_edge] does to a graph built by [add_edge] calls: the pair
    has one edge, with the new attributes, and the other pairs keep
    theirs. *)
Lemma add_edge_replaces_pair g u v a :
  recorded any_edge g ->
  NoDup (edge_pairs (Nx.add_edge g u v a))
  /\ In (u, v, a) (Nx.edges (Nx.add_edge g u v a))
  /\ (forall a', In (u, v, a') (Nx.edges (Nx.add_edge g u v a)) -> a' = a)
  /\ (forall u' v' a',
         (u', v') <> (u, v) ->
         In (u', v', a') (Nx.edges (Nx.add_edge g u v a))
         <-> In (u', v', a') (Nx.edges g)).
Proof.
  intros Hrec.
  assert (Hwf : well_formed g) by (eapply recorded_well_formed; eauto).
  assert (Hwf' : well_formed (Nx.add_edge g u v a))
    by now apply well_formed_add_edge.
  split; [now apply well_formed_edge_pairs|].
  split; [|split].
  - apply in_edges_edge_data; auto. rewrite edge_data_add_edge.
    now rewrite !String.eqb_refl.
  - intros a' Hin. apply in_edges_edge_data in Hin; auto.
    rewrite edge_data_add_edge, !String.eqb_refl in Hin. simpl in Hin.
    congruence.
  - intros u' v' a' Hne. rewrite !in_edges_edge_data by auto.
    rewrite edge_data_add_edge.
    destruct (String.eqb_spec u' u) as [->|Hu];
      destruct (String.eqb_spec v' v) as [->|Hv]; simpl; tauto.
Qed.

(** *** Reading the listing back *)

Lemma prefixb_app p r : prefixb p (p ++ r) = true.
Proof.
  induction p as [|c p IH]; simpl; auto. now rewrite Ascii.eqb_refl.
Qed.

Lemma skip_app p r : skip (String.length p) (p ++ r) = r.
Proof. induction p as [|c p IH]; simpl; auto. Qed.

(** [cut] finds the separator that follows [u] when no earlier place of
    [u ++ sep ++ r] starts the separator; [q] is the separator without its
    last character. *)
Lemma cut_first sep q u r :
  sep <> EmptyString ->
  (forall y r', y <> EmptyString ->
                prefixb sep (y ++ sep ++ r') = true -> prefixb q y = true) ->
  occurs q u = false ->
  cut sep (u ++ sep ++ r) = Some (u, r).
Proof.
  intros Hsep Hover. induction u as [|c u IH]; intros Hfree.
  - destruct sep as [|c sep]; [congruence|].
    change ("" ++ String c sep ++ r) with (String c sep ++ r).
    change (String c sep ++ r) with (String c (sep ++ r)) at 1.
    cbn [cut]. change (String c (sep ++ r)) with (String c sep ++ r).
    now rewrite prefixb_app, skip_app.
  - cbn [occurs] in Hfree. apply orb_false_iff in Hfree.
    destruct Hfree as [Hhere Hlater].
    change (String c u ++ sep ++ r) with (String c (u ++ sep ++ r)).
    cbn [cut]. change (String c (u ++ sep ++ r)) with (String c u ++ sep ++ r).
    destruct (prefixb sep (String c u ++ sep ++ r)) eqn:Hp.
    + apply Hover in Hp; [congruence|discriminate].
    + now rewrite IH.
Qed.

Ltac split_prefix H :=
  cbn [prefixb append] in H;
  repeat match type of H with
         | (_ && _) = true =>
             let Hc := fresh "Hc" in
             apply andb_true_iff in H; destruct H as [Hc H];
             apply Ascii.eqb_eq in Hc; try subst
         end.

Lemma arrow_overlap y r :
  y <> EmptyString ->
  prefixb " --> " (y ++ " --> " ++ r) = true -> prefixb " -->" y = true.
Proof.
  intros Hy H.
  do 4 (destruct y as [|? y]; [split_prefix H; congruence|]).
  split_prefix H. reflexivity.
Qed.

Lemma relation_overlap y r :
  y <> EmptyString ->
  prefixb " (Relation: " (y ++ " (Relation: " ++ r) = true ->
  prefixb " (Relation:" y = true.
Proof.
  intros Hy H.
  do 11 (destruct y as [|? y]; [split_prefix H; congruence|]).
  split_prefix H. reflexivity.
Qed.

Lemma strip_close_app l : strip_close (l ++ ")") = Some l.
Proof.
  induction l as [|c l IH]; [reflexivity|].
  change (String c l ++ ")") with (String c (l ++ ")")).
  cbn [strip_close]. rewrite IH. now destruct l.
Qed.

Lemma parse_line_relationship u v a :
  occurs " -->" u = false -> occurs " (Relation:" v = false ->
  parse_line (relationship (u, v, a)) = Some (u, v, Nx.label a).
Proof.
  intros Hu Hv. unfold parse_line, relationship.
  rewrite (cut_first " --> " " -->" u _ ltac:(discriminate) arrow_overlap Hu).
  rewrite (cut_first " (Relation: " " (Relation:" v _ ltac:(discriminate)
                     relation_overlap Hv).
  now rewrite strip_close_app.
Qed.

(** [split] undoes [join] on lines that hold no separator. *)
Lemma split_free sep x :
  occurs (String sep EmptyString) x = false -> Py.split sep x = [x].
Proof.
  induction x as [|c x IH]; intros Hfree; [reflexivity|].
  cbn [occurs prefixb] in Hfree. apply orb_false_iff in Hfree.
  destruct Hfree as [Hc Hx]. rewrite andb_true_r in Hc.
  cbn [Py.split]. rewrite Ascii.eqb_sym, Hc. now rewrite IH.
Qed.

Lemma split_app sep x rest :
  occurs (String sep EmptyString) x = false ->
  Py.split sep (x ++ String sep rest) = x :: Py.split sep rest.
Proof.
  induction x as [|c x IH]; intros Hfree.
  - simpl. now rewrite Ascii.eqb_refl.
  - cbn [occurs prefixb] in Hfree. apply orb_false_iff in Hfree.
    destruct Hfree as [Hc Hx]. rewrite andb_true_r in Hc.
    change (String c x ++ String sep rest)
      with (String c (x ++ String sep rest)).
    cbn [Py.split]. rewrite Ascii.eqb_sym, Hc. now rewrite IH.
Qed.

Lemma split_join sep lines :
  lines <> [] ->
  Forall (fun l => occurs (String sep EmptyString) l = false) lines ->
  Py.split sep (Py.join (String sep EmptyString) lines) = lines.
Proof.
  intros Hne Hfree. induction Hfree as [|l ls Hl Hls IH]; [congruence|].
  destruct ls as [|l' ls].
  - simpl. now apply split_free.
  - change (Py.join (String sep "") (l :: l' :: ls))
      with (l ++ String sep (Py.join (String sep "") (l' :: ls))).
    rewrite split_app by auto. f_equal. apply IH. discriminate.
Qed.

Lemma occurs_char_app c x y :
  occurs (String c EmptyString) (x ++ y)
  = occurs (String c EmptyString) x || occurs (String c EmptyString) y.
Proof.
  induction x as [|d x IH]; simpl.
  - now destruct (occurs (String c "") y).
  - rewrite IH, !andb_true_r. now rewrite orb_assoc.
Qed.

Lemma plain_relationship e :
  plain e = true ->
  occurs newline (relationship e) = false
  /\ parse_line (relationship e)
     = Some (fst (fst e), snd (fst e), Nx.label (snd e)).
Proof.
  destruct e as [[u v] a]. unfold plain. rewrite !andb_true_iff.
  rewrite !negb_true_iff. intros ((((Hu1 & Hu2) & Hv1) & Hv2) & Hl).
  split.
  - unfold relationship, newline in *.
    rewrite !occurs_char_app, Hu1, Hv1, Hl. reflexivity.
  - now apply parse_line_relationship.
Qed.

Lemma relationship_not_empty e : relationship e <> EmptyString.
Proof. destruct e as [[[|c u] v] a]; discriminate. Qed.

Lemma join_not_empty sep l ls :
  l <> EmptyString -> Py.join sep (l :: ls) <> EmptyString.
Proof.
  intros Hl. unfold Py.join. simpl. destruct ls; auto.
  destruct l; [congruence|discriminate].
Qed.

(** The reader gives back the triples of a graph whose edges are plain. *)
Lemma parse_listing_relationships g :
  forallb plain (Nx.edges g) = true ->
  parse_listing (Py.join newline (relationships_of g)) = triples g.
Proof.
  unfold relationships_of, triples. intros Hplain.
  rewrite forallb_forall in Hplain.
  destruct (Nx.edges g) as [|e es] eqn:He; [reflexivity|].
  assert (Hsplit : Py.split (ascii_of_nat 10)
                            (Py.join newline (map relationship (e :: es)))
                   = map relationship (e :: es)).
  { apply split_join; [discriminate|]. apply Forall_forall.
    intros l Hl. apply in_map_iff in Hl. destruct Hl as [e' [<- Hin]].
    now apply plain_relationship, Hplain. }
  unfold parse_listing. rewrite Hsplit.
  destruct (Py.join newline (map relationship (e :: es))) eqn:Hj.
  - exfalso. revert Hj. apply join_not_empty, relationship_not_empty.
  - clear Hj Hsplit He. induction (e :: es) as [|e' es' IH]; [reflexivity|].
    cbn [map flat_map].
    destruct (plain_relationship e') as [_ Hp];
      [apply Hplain; now left|].
    rewrite Hp. simpl. f_equal. apply IH.
    intros x Hx. apply Hplain. now right.
Qed.

(** C8, as the code has it: the listing has one line per edge of the graph,
    in the iteration order of the edges, each of the form
    "source --> target (Relation: label)", and the text joins them with
    line breaks; reading the text back gives the (source, target, label)
    triples of the graph, in that order, when every edge is plain: no line
    break in its names and label, no " -->" in its source, no " (Relation:"
    in its target. *)
Theorem listing_lists_edges_and_reads_back {Coord} (E : Env Coord)
        term_name max_depth w rels txt fig w' :
  main E term_name max_depth w = (Ok (Generated rels txt fig), w') ->
  rels = map relationship (Nx.edges (graph w'))
  /\ txt = Py.join newline rels
  /\ (forallb plain (Nx.edges (graph w')) = true ->
      parse_listing txt = triples (graph w')).
Proof.
  intros Hmain. apply main_generated in Hmain.
  destruct Hmain as (_ & Hrels & Htxt & _).
  split; [exact Hrels|]. split; [exact Htxt|].
  intros Hplain. subst. now apply parse_listing_relationships.
Qed.

(* ================================================================== *)
(** ** The claims on examples *)

Import Examples.

(** When the relations page does not come with status 200, [get_request]
    gives [None] and [json_data.get] raises: the fetch does not return. *)
Lemma get_relations_http_error {Coord} (E : Env Coord) depth name uri
      page_number w :
  status_code
    (requests_get E (requested w)
       ((uri ++ "/relations?pageNumber=" ++ Py.str_of_int page_number)
          ++ "&apiKey=" ++ API_KEY E)) <> 200 ->
  fst (get_relations E depth name uri page_number w) = Raise AttributeError.
Proof.
  intros Hs. rewrite get_relations_unfold. cbv zeta.
  destruct (status_code _ =? 200) eqn:H200; [|reflexivity].
  apply Z.eqb_eq in H200. contradiction.
Qed.

(** C1, on the code: the seed is found, its relations page answers with
    status 500, and the run ends with AttributeError in place of an empty
    child list; [find_uri_from_name] tests [search_data] before it reads
    it, [get_relations] does not test [json_data]. *)
Theorem relations_page_error_ends_run :
  fst (get_relations env_page_error 0 "Myocardial infarction"
                     "https://uts/C0027051" 1 world0)
  = Raise AttributeError
  /\ fst (main env_page_error "Myocardial infarction" 1 world0)
     = Raise AttributeError.
Proof. split; vm_compute; reflexivity. Qed.

(** C2 fails as stated: a page with a record whose name is empty, on which
    the detector finds no features, makes the fetch raise. *)
Lemma empty_name_ends_fetch :
  ~ (forall (E : Env unit) depth name uri w items,
        requests_get E (requested w)
          ((uri ++ "/relations?pageNumber=" ++ Py.str_of_int 1)
             ++ "&apiKey=" ++ API_KEY E)
        = mkResponse 200 (ResultArray items) ->
        exists kids, fst (get_relations E depth name uri 1 w) = Ok kids).
Proof.
  intros H.
  destruct (H env_mixed 0 "S" "u/1" world0 mixed_page eq_refl) as [kids Hk].
  vm_compute in Hk. discriminate.
Qed.

Lemma language_check_decides_fetch_witness :
  fst (get_relations env_clean 0 "S" "u/1" 1 world0)
  = Ok [("Heart attack", Some "u/2")]
  /\ Nx.nodes (graph (snd (get_relations env_clean 0 "S" "u/1" 1 world0)))
     = ["S"; "Heart attack"].
Proof.
  pose proof (language_check_decides_fetch
                env_clean 0 "S" "u/1" 1 world0
                [rel "Heart attack" "u/2"; rel "Herzinfarkt" "u/3"]
                eq_refl) as H.
  cbv zeta in H. destruct H as (Hr & Hg & _). split.
  - exact Hr.
  - rewrite Hg. reflexivity.
Defined.

(** C3 fails as stated: two concepts share the name S; the edge S --> X is
    recorded at depth 0 and again at depth 2, the edge X --> S at depth 1;
    both nodes get the colour 2 and the least depth around them is 1. *)
Lemma depth_colour_not_minimum :
  ~ (forall (E : Env unit) term_name max_depth rels txt fig w',
        main E term_name max_depth world0 = (Ok (Generated rels txt fig), w') ->
        depth_values fig
        = map (min_incident_depth (graph w')) (Nx.nodes (graph w'))).
Proof.
  intros H.
  eassert (Hrun : main env_homonym "S" 2 world0 = _)
    by (vm_compute; reflexivity).
  apply H in Hrun. vm_compute in Hrun. discriminate.
Qed.

Lemma edge_depth_within_bound_witness :
  Nx.depth (Nx.mkAttr "RO(related_to)" (Some "u/3") 1) <= 2.
Proof.
  eassert (Hrun : main env_homonym "S" 2 world0 = _)
    by (vm_compute; reflexivity).
  apply (edge_depth_within_bound env_homonym "S" 2 world0 _ _ _ _ "X" "S" _
                                 Hrun).
  simpl. auto.
Defined.

(** C7 fails as stated: the service answers the same in both runs, the
    detector takes the short name "Angina" for English in one run and for
    Italian in the other; with [max_depth = 0] both runs complete, one with
    the edge S --> Angina, the other with an empty graph. *)
Lemma same_service_different_runs :
  ~ (forall (E1 E2 : Env unit) term_name max_depth,
        same_service E1 E2 ->
        fst (main E1 term_name max_depth world0)
        = fst (main E2 term_name max_depth world0)).
Proof.
  intros H.
  assert (Hs : same_service env_angina_en env_angina_it)
    by (repeat split).
  specialize (H env_angina_en env_angina_it "S" 0 Hs).
  vm_compute in H. discriminate.
Qed.

(** C8 fails as stated: the graph with the edge from "A --> B" to "C" and
    the graph with the edge from "A" to "B --> C" have the same listing, so
    no reader gives back the triples of both. *)
Lemma listing_is_ambiguous :
  ~ (exists parse : string -> list Triple,
        forall (E : Env unit) term_name max_depth rels txt fig w',
          main E term_name max_depth world0
          = (Ok (Generated rels txt fig), w') ->
          Permutation (parse txt) (triples (graph w'))).
Proof.
  intros [parse H].
  eassert (H1 : main env_arrow_source "S" 0 world0 = _)
    by (vm_compute; reflexivity).
  eassert (H2 : main env_arrow_target "S" 0 world0 = _)
    by (vm_compute; reflexivity).
  apply H in H1. apply H in H2.
  vm_compute in H1, H2.
  apply Permutation_sym in H1.
  pose proof (Permutation_trans H1 H2) as Hp.
  apply Permutation_length_1 in Hp. discriminate.
Qed.

Lemma listing_lists_edges_and_reads_back_witness :
  parse_listing
    "Myocardial infarction --> Acute coronary syndrome (Relation: related_to())"
  = [("Myocardial infarction", "Acute coronary syndrome", "related_to()")].
Proof.
  eassert (Hrun : main env_infarction "Myocardial infarction" 0 world0 = _)
    by (vm_compute; reflexivity).
  destruct (listing_lists_edges_and_reads_back _ _ _ _ _ _ _ _ Hrun)
    as (_ & _ & Hparse).
  apply Hparse. reflexivity.
Defined.

Lemma term_not_found_starts_no_crawl_witness :
  (fst (main env_no_result "S" 3 world0) = Ok NoCrawl
   /\ fetches (snd (main env_no_result "S" 3 world0)) = [])
  /\ (fst (main env_search_error "S" 3 world0) = Ok NoCrawl
      /\ fetches (snd (main env_search_error "S" 3 world0)) = []).
Proof.
  split.
  - destruct (term_not_found_starts_no_crawl env_no_result "S" 3 world0)
      as (_ & Hm & Hf & _); [right; reflexivity|]. split; assumption.
  - destruct (term_not_found_starts_no_crawl env_search_error "S" 3 world0)
      as (_ & Hm & Hf & _); [left; simpl; lia|]. split; assumption.
Defined.

Lemma nodes_are_edge_ends_witness :
  Nx.nodes (graph (snd (main env_angina_it "S" 1 world0))) = [].
Proof.
  eassert (Hrun : main env_angina_it "S" 1 world0 = _)
    by (vm_compute; reflexivity).
  destruct (nodes_are_edge_ends _ _ _ _ _ _ _ _ Hrun) as (_ & Hempty & Hnone).
  apply Hempty, Hnone. intros n s. discriminate.
Defined.

(** *** The model on the scenarios of the specification *)

(** Scenario A: one English relation of the seed, [max_depth = 0]. *)
Example scenario_one_relation :
  fst (main env_infarction "Myocardial infarction" 0 world0)
  = Ok (Generated
          ["Myocardial infarction --> Acute coronary syndrome (Relation: related_to())"]
          "Myocardial infarction --> Acute coronary syndrome (Relation: related_to())"
          (mkFigure unit [tt; tt] [tt; tt] [tt; tt] [0; 0]
                    [Some tt; Some tt; None] [Some tt; Some tt; None]
                    [Some tt; Some tt; None]
                    ["Myocardial infarction"; "Acute coronary syndrome"])).
Proof. vm_compute. reflexivity. Qed.

(** With [max_depth = 0] the seed is the only node that is fetched. *)
Example depth_zero_fetches_seed :
  fetches (snd (main env_homonym "S" 0 world0)) = [(0, "S", "u/1")].
Proof. vm_compute. reflexivity. Qed.

(** X is queued by S (u/1) and again by its homonym S (u/3); it is fetched
    once. *)
Example requeued_node_fetched_once :
  fetches (snd (main env_homonym "S" 4 world0))
  = [(0, "S", "u/1"); (1, "X", "u/2"); (2, "S", "u/3")].
Proof. vm_compute. reflexivity. Qed.

(** Scenario B: the record that fails the language check is in no line. *)
Example other_language_left_out :
  fst (main env_clean "S" 0 world0)
  = Ok (Generated ["S --> Heart attack (Relation: RO(related_to))"]
                  "S --> Heart attack (Relation: RO(related_to))"
                  (create_3d_graph env_clean
                     (graph (snd (main env_clean "S" 0 world0))))).
Proof. vm_compute. reflexivity. Qed.

(* ================================================================== *)
(** ** Further properties of the script *)

(** *** The query and the entity id *)

Lemma split_not_nil sep s : Py.split sep s <> [].
Proof.
  destruct s as [|c s]; simpl; [discriminate|].
  destruct (Ascii.eqb c sep); [discriminate|].
  destruct (Py.split sep s); discriminate.
Qed.

Lemma join_split_replace c d s :
  Py.join (String d EmptyString) (Py.split c s) = replace_char c d s.
Proof.
  induction s as [|x s IH]; [reflexivity|].
  cbn [Py.split replace_char]. pose proof (split_not_nil c s) as Hne.
  destruct (Ascii.eqb x c).
  - destruct (Py.split c s) as [|w ws] eqn:Hs; [congruence|].
    rewrite <- IH. reflexivity.
  - destruct (Py.split c s) as [|w ws] eqn:Hs; [congruence|].
    rewrite <- IH. unfold Py.join. simpl. now destruct ws.
Qed.

(** X1: the search asks for one URL, the base of the search endpoint
    followed by the term with every space turned into "+" and by the key;
    nothing else of the term is changed. *)
Theorem search_request_replaces_spaces {Coord} (E : Env Coord) term_name w :
  requested (snd (find_uri_from_name E term_name w))
  = (requested w
     ++ [("https://uts-ws.nlm.nih.gov/rest/search/current?string="
          ++ replace_char " " "+" term_name ++ "&apiKey=" ++ API_KEY E)%string]
    )%list.
Proof.
  rewrite find_uri_world. simpl. now rewrite join_split_replace.
Qed.

Lemma replace_char_same c s : replace_char c c s = s.
Proof.
  induction s as [|x s IH]; simpl; [reflexivity|]. rewrite IH.
  destruct (Ascii.eqb_spec x c); congruence.
Qed.

Lemma split_parts_free c s :
  Forall (fun x => occurs (String c EmptyString) x = false) (Py.split c s).
Proof.
  induction s as [|x s IH]; simpl.
  - repeat constructor.
  - destruct (Ascii.eqb_spec x c) as [->|Hx].
    + constructor; auto.
    + destruct (Py.split c s) as [|w ws]; inversion IH; subst.
      * repeat constructor; simpl.
        destruct (Ascii.eqb_spec c x); [congruence|reflexivity].
      * constructor; auto. simpl. rewrite H1.
        destruct (Ascii.eqb_spec c x); [congruence|reflexivity].
Qed.

Lemma last_item_snoc l x :
  Py.last_item l = Some x -> exists init, l = (init ++ [x])%list.
Proof.
  induction l as [|y l IH]; [discriminate|].
  destruct l as [|z l].
  - simpl. intros H. inversion H; subst. now exists [].
  - intros H. destruct (IH H) as [init Hinit]. exists (y :: init).
    simpl. now rewrite Hinit.
Qed.

Lemma last_item_not_nil l : l <> [] -> exists x, Py.last_item l = Some x.
Proof.
  induction l as [|y l IH]; [congruence|]. intros _.
  destruct l as [|z l]; [now exists y|]. apply IH. discriminate.
Qed.

Lemma append_assoc_string (a b c : string) : (a ++ b) ++ c = a ++ b ++ c.
Proof. induction a as [|x a IH]; simpl; congruence. Qed.

Lemma join_snoc sep init x :
  init <> [] ->
  Py.join sep (init ++ [x]) = Py.join sep init ++ sep ++ x.
Proof.
  induction init as [|y init IH]; [congruence|]. intros _.
  destruct init as [|z init].
  - reflexivity.
  - change (Py.join sep ((y :: z :: init) ++ [x]))
      with (y ++ sep ++ Py.join sep ((z :: init) ++ [x])).
    rewrite IH by discriminate.
    change (Py.join sep (y :: z :: init))
      with (y ++ sep ++ Py.join sep (z :: init)).
    now rewrite !append_assoc_string.
Qed.

(** X2: the entity id of a URI is always defined (the split is never
    empty), holds no "/", and is the whole URI or what follows its last
    "/". *)
Theorem entity_id_is_last_segment uri :
  exists id,
    Py.last_item (Py.split "/" uri) = Some id
    /\ occurs "/" id = false
    /\ (uri = id \/ exists before, uri = before ++ "/" ++ id).
Proof.
  destruct (last_item_not_nil _ (split_not_nil "/" uri)) as [id Hid].
  exists id. split; [exact Hid|].
  destruct (last_item_snoc _ _ Hid) as [init Hinit].
  pose proof (split_parts_free "/" uri) as Hfree.
  pose proof (join_split_replace "/" "/" uri) as Hjoin.
  rewrite replace_char_same, Hinit in Hjoin. rewrite Hinit in Hfree.
  split.
  - apply Forall_app in Hfree. destruct Hfree as [_ Hlast].
    now inversion Hlast.
  - destruct init as [|y init].
    + left. now rewrite <- Hjoin.
    + right. exists (Py.join "/" (y :: init)). rewrite <- Hjoin.
      apply join_snoc. discriminate.
Qed.

(** *** Invariants of the crawl *)

Section Crawl.

Context {Coord : Type} (E : Env Coord).

(** What every fetch keeps, the loops keep. *)
Lemma expand_keeps (I : World -> Prop) max_depth depth frontier expanded_uris :
  (forall name uri,
      depth <= max_depth -> keeps I (get_relations E depth name uri 1)) ->
  keeps I (expand E max_depth depth frontier expanded_uris).
Proof.
  intros Hfetch. unfold expand.
  destruct frontier as [|[name [uri|]] frontier']; try apply keeps_raise.
  destruct (Py.last_item (Py.split "/" uri)) as [entity_id|];
    [|apply keeps_raise].
  destruct (depth <=? max_depth) eqn:Hd; simpl; [|apply keeps_ret].
  destruct (negb (Py.contains entity_id expanded_uris)); [|apply keeps_ret].
  apply keeps_bind; [|intros; apply keeps_ret].
  apply Hfetch. now apply Z.leb_le.
Qed.

Lemma for_range_keeps (I : World -> Prop) max_depth depth n :
  (forall name uri,
      depth <= max_depth -> keeps I (get_relations E depth name uri 1)) ->
  forall frontier expanded_uris,
    keeps I (for_range E n max_depth depth frontier expanded_uris).
Proof.
  intros Hfetch. induction n as [|n IH]; intros frontier expanded_uris; simpl.
  - apply keeps_ret.
  - apply keeps_bind; [now apply expand_keeps|]. intros st. apply IH.
Qed.

Lemma while_depth_keeps (I : World -> Prop) max_depth lo fuel :
  (forall depth name uri,
      lo <= depth <= max_depth ->
      keeps I (get_relations E depth name uri 1)) ->
  forall depth frontier expanded_uris,
    lo <= depth ->
    keeps I (while_depth E fuel max_depth depth frontier expanded_uris).
Proof.
  intros Hfetch.
  induction fuel as [|fuel IH]; intros depth frontier expanded_uris Hlo; simpl;
    destruct (depth <=? max_depth) eqn:Hd; try apply keeps_ret.
  - intros w Hw; exact Hw.
  - apply keeps_bind.
    + apply for_range_keeps. intros name uri Hle. apply Hfetch. lia.
    + intros st. apply IH. lia.
Qed.

(** A run from the initial world keeps what holds after the search and
    what every fetch keeps. *)
Lemma main_keeps (I : World -> Prop) term_name max_depth :
  I (mkWorld [search_request E term_name] 0%nat [] Nx.empty) ->
  (forall depth name uri,
      0 <= depth <= max_depth ->
      keeps I (get_relations E depth name uri 1)) ->
  I (snd (main E term_name max_depth world0)).
Proof.
  intros Hstart Hfetch.
  destruct (main_run E term_name max_depth world0)
    as [[H _]|(n & u & _ & H & _)]; rewrite H.
  - rewrite find_uri_world. exact Hstart.
  - rewrite find_uri_world. simpl.
    apply (while_depth_keeps I max_depth 0); auto. lia.
Qed.

Lemma get_relations_requested depth name uri w :
  requested (snd (get_relations E depth name uri 1 w))
  = (requested w ++ [page_request E uri])%list.
Proof.
  rewrite get_relations_unfold. cbv zeta.
  destruct (status_code _ =? 200); [|reflexivity].
  destruct (json _) as [|[l|]|items]; try reflexivity.
  match goal with
  | |- context [relations_loop E depth name items ?k ?w'] =>
      destruct (relations_loop_screened E depth name items k w')
        as (_ & _ & _ & Hq)
  end.
  exact Hq.
Qed.

(** X3: the requests of a run are the search request and then, for each
    fetch in order, one request for page 1 of the relations of its URI, with
    the key: one page per fetched node, and nothing else is asked. *)
Theorem one_page_request_per_fetch term_name max_depth :
  requested (snd (main E term_name max_depth world0))
  = search_request E term_name
    :: map (fun f => page_request E (snd f))
           (fetches (snd (main E term_name max_depth world0))).
Proof.
  apply (main_keeps (requests_follow E [search_request E term_name])).
  - reflexivity.
  - intros depth name uri _ w Hw. unfold requests_follow in *.
    rewrite get_relations_requested, get_relations_fetches, Hw, map_app.
    now rewrite <- app_assoc.
Qed.

(** *** What a run never ends with *)










(** *** The order of the fetches *)

Lemma StronglySorted_snoc (l : list Z) d :
  StronglySorted Z.le l -> Forall (fun x => x <= d) l ->
  StronglySorted Z.le (l ++ [d]).
Proof.
  induction 1 as [|x l Hs IH Hx]; intros Hb; simpl.
  - repeat constructor.
  - inversion Hb; subst. constructor; auto.
    apply Forall_app. split; auto.
Qed.

Lemma get_relations_within max_depth depth name uri :
  0 <= depth <= max_depth ->
  keeps (fetches_within max_depth) (get_relations E depth name uri 1).
Proof.
  intros Hd w Hw. unfold fetches_within in *.
  rewrite get_relations_fetches, map_app. apply Forall_app. split; auto.
  repeat constructor; unfold fetch_depth; simpl; lia.
Qed.

Lemma get_relations_ascend depth name uri :
  0 <= depth ->
  keeps (fetches_ascend depth) (get_relations E depth name uri 1).
Proof.
  intros Hd w [Hs Hb]. unfold fetches_ascend.
  rewrite get_relations_fetches, map_app. simpl. split.
  - apply StronglySorted_snoc; auto.
    eapply Forall_impl; [|exact Hb]. intros x Hx. cbv beta in Hx.
    unfold fetch_depth. simpl. lia.
  - apply Forall_app. split; auto. repeat constructor; unfold fetch_depth;
      simpl; lia.
Qed.

Lemma fetches_ascend_weaken d d' w :
  d <= d' -> fetches_ascend d w -> fetches_ascend d' w.
Proof.
  intros Hle [Hs Hb]. split; auto.
  eapply Forall_impl; [|exact Hb]. intros x Hx. cbv beta in *. lia.
Qed.

Lemma while_depth_ascend max_depth fuel :
  forall depth frontier expanded_uris w,
    0 <= depth ->
    fetches_ascend depth w ->
    exists d,
      fetches_ascend d (snd (while_depth E fuel max_depth depth frontier
                                         expanded_uris w)).
Proof.
  induction fuel as [|fuel IH]; intros depth frontier expanded_uris w Hd Hw;
    simpl; destruct (depth <=? max_depth); simpl; eauto.
  unfold bind.
  assert (Hlevel : fetches_ascend depth
                     (snd (for_range E (length frontier) max_depth depth
                                     frontier expanded_uris w))).
  { apply for_range_keeps; auto. intros name uri _.
    now apply get_relations_ascend. }
  destruct (for_range E (length frontier) max_depth depth frontier
                      expanded_uris w) as [[st|e|] w1]; simpl in *; eauto.
  apply IH; [lia|]. apply (fetches_ascend_weaken depth); auto. lia.
Qed.

(** X5: the nodes are fetched level by level: along the log of a run the
    depths never decrease, and each lies between 0 and [max_depth]. *)
Theorem fetches_go_level_by_level term_name max_depth :
  StronglySorted Z.le
    (map fetch_depth (fetches (snd (main E term_name max_depth world0))))
  /\ Forall (fun d => 0 <= d <= max_depth)
            (map fetch_depth
                 (fetches (snd (main E term_name max_depth world0)))).
Proof.
  split.
  - destruct (main_run E term_name max_depth world0)
      as [[H _]|(n & u & _ & H & _)]; rewrite H.
    + rewrite find_uri_world. constructor.
    + match goal with
      | |- context [while_depth E ?f ?m ?d ?fr ?ex ?w1] =>
          destruct (while_depth_ascend m f d fr ex w1) as [d' [Hs _]]
      end; auto; [lia|].
      rewrite find_uri_world. split; constructor.
  - apply (main_keeps (fetches_within max_depth)).
    + constructor.
    + intros depth name uri Hd. now apply get_relations_within.
Qed.

(** *** Where the edges come from *)

Lemma get_relations_graph depth name uri page_number w :
  exists kept,
    graph (snd (get_relations E depth name uri page_number w))
    = record_all depth name kept (graph w).
Proof.
  rewrite get_relations_unfold. cbv zeta.
  destruct (status_code _ =? 200); [|now exists []].
  destruct (json _) as [|[l|]|items]; try now exists [].
  match goal with
  | |- context [relations_loop E depth name items ?k ?w'] =>
      destruct (relations_loop_screened E depth name items k w')
        as (_ & Hg & _ & _)
  end.
  eexists. exact Hg.
Qed.

Lemma get_relations_edges_fetched depth name uri :
  keeps edges_fetched (get_relations E depth name uri 1).
Proof.
  intros w Hw. unfold edges_fetched in *.
  pose proof (get_relations_fetches E depth name uri 1 w) as Hf.
  destruct (get_relations_graph depth name uri 1 w) as [kept Hg].
  rewrite Hg. apply recorded_record_all.
  - eapply recorded_weaken; [|exact Hw].
    intros u v a [uri0 Hin]. exists uri0. rewrite Hf.
    apply in_or_app. now left.
  - intros info _. exists uri. rewrite Hf. simpl.
    apply in_or_app. right. now left.
Qed.

Lemma main_edges_fetched term_name max_depth :
  edges_fetched (snd (main E term_name max_depth world0)).
Proof.
  apply (main_keeps edges_fetched).
  - constructor.
  - intros depth name uri _. apply get_relations_edges_fetched.
Qed.

Lemma main_fetches_within term_name max_depth :
  fetches_within max_depth (snd (main E term_name max_depth world0)).
Proof.
  apply (main_keeps (fetches_within max_depth)).
  - constructor.
  - intros depth name uri Hd. now apply get_relations_within.
Qed.

(** The edges of a run from the initial world, whatever its outcome. *)
Lemma main_edge_origin term_name max_depth u v a :
  In (u, v, a) (Nx.edges (graph (snd (main E term_name max_depth world0)))) ->
  (exists uri,
      In (Nx.depth a, u, uri)
         (fetches (snd (main E term_name max_depth world0))))
  /\ 0 <= Nx.depth a <= max_depth.
Proof.
  intros Hin.
  pose proof (recorded_edges _ _ (main_edges_fetched term_name max_depth)
                             _ _ _ Hin) as [uri Hf].
  split; [now exists uri|].
  pose proof (main_fetches_within term_name max_depth) as Hb.
  unfold fetches_within in Hb. rewrite Forall_forall in Hb.
  apply (Hb (Nx.depth a)). apply in_map_iff.
  exists (Nx.depth a, u, uri). auto.
Qed.

(** X6: every edge of the graph of a run was recorded by a fetch of its
    source: the log has a fetch of the source name at the depth that the
    edge carries, and that depth is not negative. *)
Theorem every_edge_comes_from_a_fetch term_name max_depth u v a :
  In (u, v, a) (Nx.edges (graph (snd (main E term_name max_depth world0)))) ->
  (exists uri,
      In (Nx.depth a, u, uri)
         (fetches (snd (main E term_name max_depth world0))))
  /\ 0 <= Nx.depth a.
Proof.
  intros Hin. destruct (main_edge_origin _ _ _ _ _ Hin) as [Hf Hd].
  split; [exact Hf|lia].
Qed.

(** X7: the target of every edge of a completed crawl is a name that some
    call of the language detector took for English: a record that was
    never found English is the target of no edge. *)
Theorem edge_targets_were_found_english term_name max_depth w rels txt fig w'
        u v a :
  main E term_name max_depth w = (Ok (Generated rels txt fig), w') ->
  In (u, v, a) (Nx.edges (graph w')) ->
  exists n, detect E n v = Lang "en".
Proof.
  intros Hmain Hin. apply main_generated in Hmain.
  destruct Hmain as [Hrec _].
  apply (recorded_edges _ _ Hrec) in Hin. apply Hin.
Qed.

(** *** Where the crawl starts *)

Lemma get_relations_extend base depth name uri :
  keeps (fetches_extend base) (get_relations E depth name uri 1).
Proof.
  intros w [rest Hr]. exists (rest ++ [(depth, name, uri)])%list.
  now rewrite get_relations_fetches, Hr, app_assoc.
Qed.

(** [main] after a search that gave a name and a URI, both truthy. *)
Lemma main_crawl term_name max_depth w n u w0 :
  find_uri_from_name E term_name w = (Ok (Some n, Some u), w0) ->
  Py.truthy n && Py.truthy u = true ->
  let crawl := while_depth E (Z.to_nat (max_depth + 1)) max_depth 0
                           [(n, Some u)] []
                           (mkWorld (requested w0) (detections w0)
                                    (fetches w0) Nx.empty) in
  snd (main E term_name max_depth w) = snd crawl
  /\ fst (main E term_name max_depth w)
     = match fst crawl with
       | Ok _ =>
           Ok (Generated (relationships_of (graph (snd crawl)))
                         (Py.join newline
                                  (relationships_of (graph (snd crawl))))
                         (create_3d_graph E (graph (snd crawl))))
       | Raise e => Raise e
       | OutOfFuel => OutOfFuel
       end.
Proof.
  intros Hfind Htruthy. cbv zeta. unfold main, bind.
  rewrite Hfind, Htruthy. unfold set_graph. simpl.
  match goal with
  | |- context [while_depth E ?f ?m ?d ?fr ?ex ?w1] =>
      destruct (while_depth E f m d fr ex w1) as [[[]|e|] w2]
  end; split; reflexivity.
Qed.

(** The first level, on a world without fetches. *)
Lemma first_level max_depth fuel n u w :
  0 <= max_depth ->
  fetches w = [] ->
  let crawl := while_depth E (S fuel) max_depth 0 [(n, Some u)] [] w in
  fetches_extend [(0, n, u)] (snd crawl)
  /\ (max_depth = 0 -> fetches (snd crawl) = [(0, n, u)]).
Proof.
  intros Hd Hnil. cbv zeta.
  destruct (last_item_not_nil _ (split_not_nil "/" u)) as [id Hid].
  cbn [while_depth for_range expand length].
  assert (Hle : (0 <=? max_depth) = true) by now apply Z.leb_le.
  rewrite Hle, Hid. cbn [Py.contains existsb negb andb].
  unfold bind.
  pose proof (get_relations_fetches E 0 n u 1 w) as Hf.
  rewrite Hnil in Hf.
  destruct (get_relations E 0 n u 1 w) as [[kids|e|] w1]; simpl in Hf |- *.
  - split.
    + apply (while_depth_keeps (fetches_extend [(0, n, u)]) max_depth 0).
      * intros depth name uri _. apply get_relations_extend.
      * lia.
      * exists []. now rewrite Hf.
    + intros ->. destruct fuel; simpl; exact Hf.
  - split; [exists []; now rewrite Hf|auto].
  - split; [exists []; now rewrite Hf|auto].
Qed.

(** X8: when the search gives a name and a URI and [max_depth] is not
    negative, the first fetch of the run is the one of that name and URI, at
    depth 0; with [max_depth = 0] it is the only fetch. *)
Theorem crawl_starts_at_the_seed term_name max_depth n u :
  fst (find_uri_from_name E term_name world0) = Ok (Some n, Some u) ->
  Py.truthy n && Py.truthy u = true ->
  0 <= max_depth ->
  (exists rest,
      fetches (snd (main E term_name max_depth world0)) = (0, n, u) :: rest)
  /\ (max_depth = 0 ->
      fetches (snd (main E term_name max_depth world0)) = [(0, n, u)]).
Proof.
  intros Hfind Htruthy Hd.
  destruct (find_uri_from_name E term_name world0) as [r w0] eqn:Hrun.
  simpl in Hfind. subst r.
  assert (Hw0 : fetches w0 = []).
  { change w0 with (snd (Ok (Some n, Some u), w0)). rewrite <- Hrun.
    now rewrite find_uri_world. }
  destruct (main_crawl term_name max_depth world0 n u w0 Hrun Htruthy)
    as [Hsnd _].
  rewrite Hsnd.
  assert (Hfuel : exists fuel, Z.to_nat (max_depth + 1) = S fuel).
  { exists (Z.to_nat max_depth). lia. }
  destruct Hfuel as [fuel ->].
  destruct (first_level max_depth fuel n u
                        (mkWorld (requested w0) (detections w0)
                                 (fetches w0) Nx.empty) Hd Hw0)
    as [[rest Hrest] Hzero].
  split; [exists rest; exact Hrest|exact Hzero].
Qed.

(** *** When the crawl completes *)








(** *** The figure *)

(** X9: after a completed crawl from the initial world every depth colour
    of the figure lies between 0 and [max_depth]: each node has an edge, and
    its colour is the depth of one of the edges that name it. *)
Theorem depth_colours_within_bound term_name max_depth rels txt fig w' :
  main E term_name max_depth world0 = (Ok (Generated rels txt fig), w') ->
  Forall (fun c => 0 <= c <= max_depth) (depth_values fig).
Proof.
  intros Hmain.
  assert (Hw : w' = snd (main E term_name max_depth world0))
    by now rewrite Hmain.
  apply main_generated in Hmain. destruct Hmain as (Hrec & _ & _ & Hfig).
  subst fig. unfold create_3d_graph. simpl. apply Forall_forall.
  intros c Hc. apply in_map_iff in Hc. destruct Hc as [n [<- Hn]].
  rewrite node_depth_loop_first. simpl.
  destruct (recorded_nodes _ _ Hrec n Hn) as (u & v & a & Hin & Hends).
  unfold first_incident_depth.
  destruct (filter (incident n) (Nx.edges (graph w'))) as [|e0 l] eqn:Hf.
  - exfalso.
    assert (Hin' : In (u, v, a) (filter (incident n) (Nx.edges (graph w')))).
    { apply filter_In. split; auto. simpl.
      destruct Hends as [-> | ->]; rewrite String.eqb_refl; auto.
      now rewrite orb_true_r. }
    rewrite Hf in Hin'. destruct Hin'.
  - assert (Hin0 : In e0 (filter (incident n) (Nx.edges (graph w'))))
      by (rewrite Hf; now left).
    apply filter_In in Hin0. destruct Hin0 as [Hin0 _].
    destruct e0 as [[u0 v0] a0]. simpl. rewrite Hw in Hin0.
    now destruct (main_edge_origin _ _ _ _ _ Hin0).
Qed.

(** X10: the labels of the markers of the figure of a completed crawl are
    the node names of the graph, each once: names that are met again, as
    source or as target, give no second marker. *)
Theorem node_labels_are_distinct term_name max_depth w rels txt fig w' :
  main E term_name max_depth w = (Ok (Generated rels txt fig), w') ->
  text fig = Nx.nodes (graph w') /\ NoDup (text fig).
Proof.
  intros Hmain. apply main_generated in Hmain.
  destruct Hmain as (Hrec & _ & _ & Hfig). subst fig. simpl.
  split; [reflexivity|].
  now destruct (recorded_well_formed _ _ Hrec).
Qed.

Lemma fold_left_min_le ds : forall d, fold_left Z.min ds d <= d.
Proof.
  induction ds as [|x ds IH]; intros d; simpl; [lia|].
  specialize (IH (Z.min d x)). lia.
Qed.

Lemma min_le_first_incident g n :
  min_incident_depth g n <= first_incident_depth (Nx.edges g) n.
Proof.
  unfold min_incident_depth, first_incident_depth.
  destruct (filter (incident n) (Nx.edges g)) as [|e l]; simpl; [lia|].
  apply fold_left_min_le.
Qed.

(** X11: for every graph, the depth colour that [create_3d_graph] gives a
    node is never below the least depth among the edges that name the
    node. *)
Theorem depth_colour_at_least_minimum g :
  Forall2 Z.le (map (min_incident_depth g) (Nx.nodes g))
          (depth_values (create_3d_graph E g)).
Proof.
  unfold create_3d_graph. simpl.
  induction (Nx.nodes g) as [|n l IH]; simpl; constructor; auto.
  rewrite node_depth_loop_first. simpl. apply min_le_first_incident.
Qed.

(** *** The crawl follows the edges *)

Lemma is_target_add_edge g u v a x :
  well_formed g -> is_target g x -> is_target (Nx.add_edge g u v a) x.
Proof.
  intros Hwf (p & a0 & Hin).
  apply in_edges_edge_data in Hin; auto.
  destruct (String.eqb p u && String.eqb x v) eqn:Hsame.
  - exists p, a. apply in_edges_edge_data;
      [now apply well_formed_add_edge|].
    now rewrite edge_data_add_edge, Hsame.
  - exists p, a0. apply in_edges_edge_data;
      [now apply well_formed_add_edge|].
    now rewrite edge_data_add_edge, Hsame.
Qed.

Lemma is_target_new_edge g u v a :
  well_formed g -> is_target (Nx.add_edge g u v a) v.
Proof.
  intros Hwf. exists u, a.
  apply in_edges_edge_data; [now apply well_formed_add_edge|].
  now rewrite edge_data_add_edge, !String.eqb_refl.
Qed.

Lemma well_formed_record_all depth name kept :
  forall g, well_formed g -> well_formed (record_all depth name kept g).
Proof.
  induction kept as [|info kept IH]; intros g Hwf; simpl; auto.
  apply IH. now apply well_formed_add_edge.
Qed.

Lemma is_target_record_all depth name kept x :
  forall g,
    well_formed g -> is_target g x ->
    is_target (record_all depth name kept g) x.
Proof.
  induction kept as [|info kept IH]; intros g Hwf Hx; simpl; auto.
  apply IH; [now apply well_formed_add_edge|].
  now apply is_target_add_edge.
Qed.

Lemma is_target_kept depth name kept info :
  forall g,
    well_formed g -> In info kept ->
    is_target (record_all depth name kept g) (fst (kid_of info)).
Proof.
  induction kept as [|i kept IH]; intros g Hwf Hin; [destruct Hin|].
  simpl. destruct Hin as [->|Hin].
  - apply is_target_record_all; [now apply well_formed_add_edge|].
    now apply is_target_new_edge.
  - apply IH; auto. now apply well_formed_add_edge.
Qed.

(** The graph after a fetch and the children that it returns. *)
Lemma get_relations_kept depth name uri page_number w :
  exists kept,
    graph (snd (get_relations E depth name uri page_number w))
    = record_all depth name kept (graph w)
    /\ forall kids,
        fst (get_relations E depth name uri page_number w) = Ok kids ->
        kids = map kid_of kept.
Proof.
  rewrite get_relations_unfold. cbv zeta.
  destruct (status_code _ =? 200);
    [|exists []; split; [reflexivity|discriminate]].
  destruct (json _) as [|[l|]|items];
    try (exists []; split; [reflexivity|]; simpl; congruence).
  match goal with
  | |- context [relations_loop E depth name items ?k ?w'] =>
      destruct (relations_loop_screened E depth name items k w')
        as (Hr & Hg & _ & _)
  end.
  eexists. split; [exact Hg|]. intros kids Hk. rewrite Hr in Hk.
  destruct (snd (screened E _ items)); [discriminate|].
  inversion Hk. reflexivity.
Qed.

Lemma discovered_grows seed w w' k :
  well_formed (graph w) ->
  (exists depth name kept,
      graph w' = record_all depth name kept (graph w)) ->
  discovered seed w k -> discovered seed w' k.
Proof.
  intros Hwf (depth & name & kept & Hg) [Hseed|Ht]; [now left|].
  right. rewrite Hg. now apply is_target_record_all.
Qed.

Lemma expand_follows seed max_depth depth frontier expanded_uris w :
  crawl_follows seed w ->
  Forall (discovered seed w) frontier ->
  let r := expand E max_depth depth frontier expanded_uris w in
  crawl_follows seed (snd r)
  /\ forall st, fst r = Ok st -> Forall (discovered seed (snd r)) (fst st).
Proof.
  intros [Hwf Hlog] Hq. cbv zeta. unfold expand.
  destruct frontier as [|[name [uri|]] frontier'];
    try (split; [split; assumption|discriminate]).
  inversion Hq as [|? ? Hhead Hq']; subst.
  destruct (Py.last_item (Py.split "/" uri)) as [id|];
    [|split; [split; assumption|discriminate]].
  destruct ((depth <=? max_depth) && negb (Py.contains id expanded_uris)).
  - unfold bind.
    pose proof (get_relations_fetches E depth name uri 1 w) as Hf.
    destruct (get_relations_kept depth name uri 1 w) as (kept & Hg & Hkids).
    destruct (get_relations E depth name uri 1 w) as [r w1].
    simpl in Hf, Hg, Hkids.
    assert (Hgrow : forall k, discovered seed w k -> discovered seed w1 k).
    { intros k. apply discovered_grows; eauto. }
    assert (Hfollow : crawl_follows seed w1).
    { split.
      - rewrite Hg. now apply well_formed_record_all.
      - rewrite Hf. apply Forall_app. split.
        + eapply Forall_impl; [|exact Hlog]. intros f. apply Hgrow.
        + constructor; [|constructor]. simpl. now apply Hgrow. }
    destruct r as [kids|e|]; simpl; split; auto; try discriminate.
    intros st Hst. inversion Hst; subst. simpl. apply Forall_app. split.
    + eapply Forall_impl; [|exact Hq']. intros k. apply Hgrow.
    + rewrite (Hkids kids eq_refl). apply Forall_forall.
      intros k Hk. apply in_map_iff in Hk. destruct Hk as [info [<- Hin]].
      right. rewrite Hg. now apply is_target_kept.
  - simpl. split; [split; assumption|].
    intros st Hst. inversion Hst; subst. exact Hq'.
Qed.

Lemma for_range_follows seed max_depth depth n :
  forall frontier expanded_uris w,
    crawl_follows seed w ->
    Forall (discovered seed w) frontier ->
    let r := for_range E n max_depth depth frontier expanded_uris w in
    crawl_follows seed (snd r)
    /\ forall st, fst r = Ok st -> Forall (discovered seed (snd r)) (fst st).
Proof.
  induction n as [|n IH]; intros frontier expanded_uris w Hw Hq; cbv zeta.
  - simpl. split; auto. intros st Hst. inversion Hst; subst. exact Hq.
  - simpl. unfold bind.
    destruct (expand_follows seed max_depth depth frontier expanded_uris w
                             Hw Hq) as [Hw1 Hq1].
    destruct (expand E max_depth depth frontier expanded_uris w)
      as [[st|e|] w1]; simpl in *.
    + apply IH; auto.
    + split; [exact Hw1|discriminate].
    + split; [exact Hw1|discriminate].
Qed.

Lemma while_depth_follows seed max_depth fuel :
  forall depth frontier expanded_uris w,
    crawl_follows seed w ->
    Forall (discovered seed w) frontier ->
    crawl_follows seed
      (snd (while_depth E fuel max_depth depth frontier expanded_uris w)).
Proof.
  induction fuel as [|fuel IH]; intros depth frontier expanded_uris w Hw Hq;
    simpl; destruct (depth <=? max_depth); simpl; auto.
  unfold bind.
  destruct (for_range_follows seed max_depth depth (length frontier) frontier
                              expanded_uris w Hw Hq) as [Hw1 Hq1].
  destruct (for_range E (length frontier) max_depth depth frontier
                      expanded_uris w) as [[st|e|] w1]; simpl in *; auto.
Qed.

(** X13: the crawl follows the edges: every fetch of a run is the fetch of
    the name and URI that the search gave, or the fetch of a node that is
    the target of an edge of the graph. *)
Theorem fetched_nodes_are_seed_or_targets term_name max_depth depth name uri :
  In (depth, name, uri) (fetches (snd (main E term_name max_depth world0))) ->
  fst (find_uri_from_name E term_name world0) = Ok (Some name, Some uri)
  \/ exists p a,
      In (p, name, a)
         (Nx.edges (graph (snd (main E term_name max_depth world0)))).
Proof.
  destruct (main_run E term_name max_depth world0)
    as [[H _]|(n & u & Hfound & H & _)]; rewrite H.
  - rewrite find_uri_world. intros [].
  - intros Hin.
    match goal with
    | _ : context [while_depth E ?f ?m ?d ?fr ?ex ?w1] |- _ =>
        assert (Hfollow : crawl_follows (n, Some u)
                            (snd (while_depth E f m d fr ex w1)))
    end.
    { apply while_depth_follows.
      - rewrite find_uri_world. split; [apply well_formed_empty|constructor].
      - repeat constructor. }
    destruct Hfollow as [_ Hlog]. rewrite Forall_forall in Hlog.
    destruct (Hlog _ Hin) as [Hseed|Ht].
    + left. simpl in Hseed. inversion Hseed; subst. exact Hfound.
    + right. exact Ht.
Qed.

End Crawl.

(** *** The further properties on examples *)

Lemma every_edge_comes_from_a_fetch_witness :
  (exists uri, In (1, "X", uri) (fetches (snd (main env_homonym "S" 2 world0))))
  /\ 0 <= 1.
Proof.
  apply (every_edge_comes_from_a_fetch
           env_homonym "S" 2 "X" "S"
           (Nx.mkAttr "RO(related_to)" (Some "u/3") 1)).
  vm_compute. auto.
Defined.

Lemma edge_targets_were_found_english_witness :
  exists n, detect env_homonym n "S" = Lang "en".
Proof.
  eassert (Hrun : main env_homonym "S" 2 world0 = _)
    by (vm_compute; reflexivity).
  apply (edge_targets_were_found_english
           env_homonym "S" 2 world0 _ _ _ _ "X" "S"
           (Nx.mkAttr "RO(related_to)" (Some "u/3") 1) Hrun).
  simpl. auto.
Defined.

Lemma crawl_starts_at_the_seed_witness :
  fetches (snd (main env_homonym "S" 0 world0)) = [(0, "S", "u/1")].
Proof.
  apply (crawl_starts_at_the_seed env_homonym "S" 0 "S" "u/1");
    reflexivity || lia.
Defined.


Lemma depth_colours_within_bound_witness :
  Forall (fun c => 0 <= c <= 2) [2; 2].
Proof.
  eassert (Hrun : main env_homonym "S" 2 world0 = _)
    by (vm_compute; reflexivity).
  exact (depth_colours_within_bound env_homonym "S" 2 _ _ _ _ Hrun).
Defined.

Lemma fetched_nodes_are_seed_or_targets_witness :
  fst (find_uri_from_name env_homonym "S" world0) = Ok (Some "X", Some "u/2")
  \/ exists p a,
      In (p, "X", a) (Nx.edges (graph (snd (main env_homonym "S" 2 world0)))).
Proof.
  apply (fetched_nodes_are_seed_or_targets env_homonym "S" 2 1 "X" "u/2").
  vm_compute. auto.
Defined.

Lemma node_labels_are_distinct_witness :
  NoDup ["S"; "X"].
Proof.
  eassert (Hrun : main env_homonym "S" 2 world0 = _)
    by (vm_compute; reflexivity).
  exact (proj2 (node_labels_are_distinct env_homonym "S" 2 world0 _ _ _ _
                                         Hrun)).
Defined.

(* ================================================================== *)
(** ** One edge per ordered pair, the last recording *)

(** The edge of a pair after the records [kept] of a page of [name] are
    recorded: the one of the last record with that target, the former one
    when there is no such record. *)
Lemma edge_data_record_all depth name kept :
  forall g u v,
    Nx.edge_data (record_all depth name kept g) u v
    = match (if String.eqb u name then last_record v kept else None) with
      | Some info => Some (snd (edge_of depth info))
      | None => Nx.edge_data g u v
      end.
Proof.
  induction kept as [|info rest IH]; intros g u v.
  - simpl. now destruct (String.eqb u name).
  - change (record_all depth name (info :: rest) g)
      with (record_all depth name rest
              (Nx.add_edge g name (fst (edge_of depth info))
                           (snd (edge_of depth info)))).
    rewrite IH, edge_data_add_edge. cbn [last_record].
    destruct (String.eqb u name); simpl; [|reflexivity].
    destruct (last_record v rest); [reflexivity|].
    now destruct (String.eqb v (Py.fmt (relatedIdName info))).
Qed.

(** C6: the graph of a run has at most one edge per ordered pair of names,
    and so has the graph after every fetch of the crawl: on a graph without
    repeated pairs, [get_relations] for [name] at [depth] leaves a graph
    without repeated pairs in which the pair [(name, v)] carries the label,
    the URI and the depth of the last record of the page that was kept with
    the name [v], whether the pair had an edge before or not, and in which
    every other pair keeps the edge that it had. *)
Theorem one_edge_per_ordered_pair {Coord} (E : Env Coord) term_name max_depth
        depth name uri w items :
  well_formed (graph w) ->
  requests_get E (requested w) (page_request E uri)
  = mkResponse 200 (ResultArray items) ->
  let g := graph (snd (get_relations E depth name uri 1 w)) in
  let kept := fst (screened E (detections w) items) in
  NoDup (edge_pairs (graph (snd (main E term_name max_depth world0))))
  /\ NoDup (edge_pairs g)
  /\ (forall u v a, In (u, v, a) (Nx.edges g) <-> Nx.edge_data g u v = Some a)
  /\ (forall u v,
         Nx.edge_data g u v
         = match (if String.eqb u name then last_record v kept else None) with
           | Some info => Some (snd (edge_of depth info))
           | None => Nx.edge_data (graph w) u v
           end).
Proof.
  intros Hwf Hresp. cbv zeta.
  assert (Hg : graph (snd (get_relations E depth name uri 1 w))
               = record_all depth name
                            (fst (screened E (detections w) items)) (graph w)).
  { rewrite get_relations_unfold. cbv zeta. unfold page_request in Hresp.
    rewrite Hresp. simpl status_code. simpl json.
    change (200 =? 200) with true. cbv iota.
    match goal with
    | |- context [relations_loop E depth name items ?k ?w'] =>
        destruct (relations_loop_screened E depth name items k w')
          as (_ & Hg & _ & _)
    end.
    exact Hg. }
  rewrite Hg.
  assert (Hwf' : well_formed
                   (record_all depth name
                               (fst (screened E (detections w) items))
                               (graph w)))
    by now apply well_formed_record_all.
  split.
  { apply well_formed_edge_pairs.
    exact (recorded_well_formed _ _ (main_recorded E term_name max_depth)). }
  split; [now apply well_formed_edge_pairs|].
  split.
  - intros u v a. now apply in_edges_edge_data.
  - intros u v. apply edge_data_record_all.
Qed.

Lemma one_edge_per_ordered_pair_witness :
  Nx.edge_data
    (graph
       (snd (get_relations
               env_homonym 2 "S" "u/3" 1
               (mkWorld [] 0%nat []
                        (Nx.add_edge Nx.empty "S" "X"
                           (Nx.mkAttr "RO(related_to)" (Some "u/9") 0))))))
    "S" "X"
  = Some (Nx.mkAttr "RO(related_to)" (Some "u/2") 2).
Proof.
  pose proof (one_edge_per_ordered_pair
                env_homonym "S" 2 2 "S" "u/3"
                (mkWorld [] 0%nat []
                         (Nx.add_edge Nx.empty "S" "X"
                            (Nx.mkAttr "RO(related_to)" (Some "u/9") 0)))
                [rel "X" "u/2"]
                (recorded_well_formed
                   any_edge _
                   (recorded_add any_edge _ _ _ _ (recorded_empty any_edge) I))
                eq_refl) as H.
  cbv zeta in H. destruct H as (_ & _ & _ & Hlast).
  exact (Hlast "S" "X").
Defined.

(** The crawl on the homonym overwrites the edge S --> X of depth 0 at
    depth 2. *)
Example homonym_overwrites_edge :
  Nx.edge_data (graph (snd (main env_homonym "S" 0 world0))) "S" "X"
  = Some (Nx.mkAttr "RO(related_to)" (Some "u/2") 0)
  /\ Nx.edge_data (graph (snd (main env_homonym "S" 2 world0))) "S" "X"
     = Some (Nx.mkAttr "RO(related_to)" (Some "u/2") 2).
Proof. split; vm_compute; reflexivity. Qed.

(* ================================================================== *)
(** ** Two runs *)

Lemma extends_refl w : extends w w.
Proof. split; [exists []; now rewrite app_nil_r|lia]. Qed.

Lemma extends_trans w1 w2 w3 : extends w1 w2 -> extends w2 w3 -> extends w1 w3.
Proof.
  intros [[r1 H1] L1] [[r2 H2] L2]. split; [|lia].
  exists (r1 ++ r2)%list. now rewrite H2, H1, app_assoc.
Qed.

Lemma grows_keeps {A} (m : M A) w0 : grows m -> keeps (extends w0) m.
Proof. intros Hm w Hw. eapply extends_trans; [exact Hw|apply Hm]. Qed.

Lemma grows_relations_loop {Coord} (E : Env Coord) depth name items :
  forall kids, grows (relations_loop E depth name items kids).
Proof.
  induction items as [|info rest IH]; intros kids w.
  - apply extends_refl.
  - rewrite relations_loop_cons.
    destruct (relatedIdName info) as [related|]; [|apply extends_refl].
    cbv zeta.
    destruct (detect E (detections w) related) as [code|].
    + destruct (String.eqb code "en");
        (eapply extends_trans; [|apply IH]);
        (split; simpl; [exists []; now rewrite app_nil_r|lia]).
    + split; simpl; [exists []; now rewrite app_nil_r|lia].
Qed.

(** The world after a fetch comes after the one in which the page has just
    been asked. *)
Lemma get_relations_after_request {Coord} (E : Env Coord) depth name uri w :
  extends (mkWorld (requested w ++ [page_request E uri]) (detections w)
                   (fetches w) (graph w))
          (snd (get_relations E depth name uri 1 w)).
Proof.
  rewrite get_relations_unfold. cbv zeta. unfold page_request.
  assert (Hsame : forall f g,
             extends (mkWorld (requested w
                               ++ [(uri ++ "/relations?pageNumber="
                                        ++ Py.str_of_int 1)
                                   ++ "&apiKey=" ++ API_KEY E])
                              (detections w) (fetches w) (graph w))
                     (mkWorld (requested w
                               ++ [(uri ++ "/relations?pageNumber="
                                        ++ Py.str_of_int 1)
                                   ++ "&apiKey=" ++ API_KEY E])
                              (detections w) f g)).
  { intros f g. split; simpl; [exists []; now rewrite app_nil_r|lia]. }
  destruct (status_code _ =? 200); [|apply Hsame].
  destruct (json _) as [|[l|]|items]; try apply Hsame.
  eapply extends_trans; [apply Hsame|apply grows_relations_loop].
Qed.

Lemma grows_get_relations {Coord} (E : Env Coord) depth name uri :
  grows (get_relations E depth name uri 1).
Proof.
  intros w. eapply extends_trans; [|apply get_relations_after_request].
  split; simpl; [eexists; reflexivity|lia].
Qed.

Lemma grows_expand {Coord} (E : Env Coord) max_depth depth frontier
      expanded_uris :
  grows (expand E max_depth depth frontier expanded_uris).
Proof.
  intros w. apply (expand_keeps E (extends w)); [|apply extends_refl].
  intros name uri _. apply grows_keeps, grows_get_relations.
Qed.

Lemma grows_for_range {Coord} (E : Env Coord) n max_depth depth frontier
      expanded_uris :
  grows (for_range E n max_depth depth frontier expanded_uris).
Proof.
  intros w. apply (for_range_keeps E (extends w)); [|apply extends_refl].
  intros name uri _. apply grows_keeps, grows_get_relations.
Qed.

Lemma grows_while_depth {Coord} (E : Env Coord) fuel max_depth depth frontier
      expanded_uris :
  grows (while_depth E fuel max_depth depth frontier expanded_uris).
Proof.
  intros w.
  apply (while_depth_keeps E (extends w) max_depth depth);
    [|lia|apply extends_refl].
  intros d name uri _. apply grows_keeps, grows_get_relations.
Qed.

Section SameAnswers.

Context {Coord : Type} (E1 E2 : Env Coord) (final : World).
Hypothesis Hsame : same_answers_in final E1 E2.

Lemma get_request_agree uri w :
  extends (snd (get_request E1 uri w)) final ->
  get_request E1 uri w = get_request E2 uri w.
Proof.
  intros [[rest Hr] _]. rewrite get_request_world in Hr. simpl in Hr.
  destruct Hsame as (Hk & Hreq & _). unfold get_request.
  rewrite <- Hk.
  rewrite <- (Hreq (requested w) (uri ++ "&apiKey=" ++ API_KEY E1) rest);
    [reflexivity|].
  now rewrite Hr, <- app_assoc.
Qed.

Lemma relations_loop_agree depth name items :
  forall kids w,
    extends (snd (relations_loop E1 depth name items kids w)) final ->
    relations_loop E1 depth name items kids w
    = relations_loop E2 depth name items kids w.
Proof.
  induction items as [|info rest IH]; intros kids w Hext; [reflexivity|].
  rewrite (relations_loop_cons E2).
  rewrite (relations_loop_cons E1) in Hext |- *.
  destruct (relatedIdName info) as [related|]; [|reflexivity].
  cbv zeta in Hext |- *.
  assert (Hcall : (detections w < detections final)%nat).
  { destruct (detect E1 (detections w) related) as [code|].
    - destruct (String.eqb code "en");
        match type of Hext with
        | extends (snd (relations_loop E1 depth name rest ?k ?w')) final =>
            pose proof (grows_relations_loop E1 depth name rest k w')
              as [_ Hle]
        end;
        destruct Hext as [_ Hle'];
        (eapply Nat.lt_le_trans; [|exact Hle']);
        (eapply Nat.lt_le_trans; [|exact Hle]); simpl; lia.
    - destruct Hext as [_ Hle]. eapply Nat.lt_le_trans; [|exact Hle].
      simpl. lia. }
  destruct Hsame as (_ & _ & Hdet & _).
  rewrite <- (Hdet _ related Hcall).
  destruct (detect E1 (detections w) related) as [code|]; [|reflexivity].
  destruct (String.eqb code "en"); now apply IH.
Qed.

Lemma get_relations_agree depth name uri w :
  extends (snd (get_relations E1 depth name uri 1 w)) final ->
  get_relations E1 depth name uri 1 w = get_relations E2 depth name uri 1 w.
Proof.
  intros Hext.
  assert (Hasked : exists rest,
             requested final
             = (requested w ++ page_request E1 uri :: rest)%list).
  { destruct (extends_trans _ _ _
                (get_relations_after_request E1 depth name uri w) Hext)
      as [[rest Hr] _].
    simpl in Hr. exists rest. now rewrite Hr, <- app_assoc. }
  destruct Hasked as [rest Hasked].
  pose proof Hsame as (Hk & Hreq & _).
  specialize (Hreq _ _ _ Hasked). unfold page_request in Hreq.
  rewrite (get_relations_unfold E2).
  rewrite (get_relations_unfold E1) in Hext |- *.
  cbv zeta in Hext |- *. rewrite <- Hk, <- Hreq.
  destruct (status_code _ =? 200); [|reflexivity].
  destruct (json _) as [|[l|]|items]; try reflexivity.
  now apply relations_loop_agree.
Qed.

Lemma expand_agree max_depth depth frontier expanded_uris w :
  extends (snd (expand E1 max_depth depth frontier expanded_uris w)) final ->
  expand E1 max_depth depth frontier expanded_uris w
  = expand E2 max_depth depth frontier expanded_uris w.
Proof.
  unfold expand. destruct frontier as [|[name [uri|]] frontier'];
    try reflexivity.
  destruct (Py.last_item (Py.split "/" uri)); [|reflexivity].
  destruct ((depth <=? max_depth) && _); [|reflexivity].
  unfold bind. intros Hext.
  rewrite <- get_relations_agree.
  - reflexivity.
  - destruct (get_relations E1 depth name uri 1 w) as [[kids|e|] w1];
      exact Hext.
Qed.

Lemma for_range_agree max_depth depth n :
  forall frontier expanded_uris w,
    extends (snd (for_range E1 n max_depth depth frontier expanded_uris w))
            final ->
    for_range E1 n max_depth depth frontier expanded_uris w
    = for_range E2 n max_depth depth frontier expanded_uris w.
Proof.
  induction n as [|n IH]; intros frontier expanded_uris w Hext;
    [reflexivity|].
  simpl in Hext |- *. unfold bind in Hext |- *.
  assert (Hturn : extends
                    (snd (expand E1 max_depth depth frontier expanded_uris w))
                    final).
  { eapply extends_trans; [|exact Hext].
    destruct (expand E1 max_depth depth frontier expanded_uris w)
      as [[st|e|] w1]; simpl;
      [apply grows_for_range|apply extends_refl|apply extends_refl]. }
  rewrite <- (expand_agree _ _ _ _ _ Hturn).
  destruct (expand E1 max_depth depth frontier expanded_uris w)
    as [[st|e|] w1]; try reflexivity.
  now apply IH.
Qed.

Lemma while_depth_agree max_depth fuel :
  forall depth frontier expanded_uris w,
    extends (snd (while_depth E1 fuel max_depth depth frontier
                              expanded_uris w)) final ->
    while_depth E1 fuel max_depth depth frontier expanded_uris w
    = while_depth E2 fuel max_depth depth frontier expanded_uris w.
Proof.
  induction fuel as [|fuel IH]; intros depth frontier expanded_uris w Hext;
    simpl in Hext |- *; destruct (depth <=? max_depth); try reflexivity.
  unfold bind in Hext |- *.
  assert (Hlevel : extends
                     (snd (for_range E1 (length frontier) max_depth depth
                                     frontier expanded_uris w)) final).
  { eapply extends_trans; [|exact Hext].
    destruct (for_range E1 (length frontier) max_depth depth frontier
                        expanded_uris w) as [[st|e|] w1]; simpl;
      [apply grows_while_depth|apply extends_refl|apply extends_refl]. }
  rewrite <- (for_range_agree _ _ _ _ _ _ Hlevel).
  destruct (for_range E1 (length frontier) max_depth depth frontier
                      expanded_uris w) as [[st|e|] w1]; try reflexivity.
  now apply IH.
Qed.

Lemma find_uri_agree term_name w :
  extends (snd (find_uri_from_name E1 term_name w)) final ->
  find_uri_from_name E1 term_name w = find_uri_from_name E2 term_name w.
Proof.
  intros Hext. rewrite find_uri_world in Hext.
  rewrite <- get_request_world in Hext.
  unfold find_uri_from_name, bind.
  now rewrite (get_request_agree _ _ Hext).
Qed.

(** The figure reads the layout in dimension 3 with the seed 42 only. *)
Lemma create_3d_graph_agree g : create_3d_graph E1 g = create_3d_graph E2 g.
Proof.
  destruct Hsame as (_ & _ & _ & Hl). unfold create_3d_graph. cbv zeta.
  f_equal; try (apply map_ext; intros n; now rewrite Hl);
    apply flat_map_ext; intros [[u v] a]; now rewrite !Hl.
Qed.

Lemma main_agree term_name max_depth w :
  extends (snd (main E1 term_name max_depth w)) final ->
  main E1 term_name max_depth w = main E2 term_name max_depth w.
Proof.
  intros Hext.
  assert (Hfind : extends (snd (find_uri_from_name E1 term_name w)) final).
  { eapply extends_trans; [|exact Hext].
    destruct (main_run E1 term_name max_depth w)
      as [[H _]|(n & u & _ & H & _)]; rewrite H.
    - apply extends_refl.
    - eapply extends_trans; [|apply grows_while_depth].
      split; simpl; [exists []; now rewrite app_nil_r|lia]. }
  revert Hext. unfold main, bind.
  rewrite <- (find_uri_agree _ _ Hfind).
  destruct (find_uri_from_name E1 term_name w) as [[[[n|] [u|]]|e|] w0];
    try reflexivity.
  destruct (Py.truthy n && Py.truthy u); [|reflexivity].
  unfold set_graph. simpl. intros Hext.
  rewrite <- while_depth_agree.
  - match goal with
    | |- context [while_depth E1 ?f ?m ?d ?fr ?ex ?w1] =>
        destruct (while_depth E1 f m d fr ex w1) as [[[]|e|] w2]
    end; try reflexivity.
    unfold get_graph, ret. now rewrite create_3d_graph_agree.
  - match goal with
    | |- context [while_depth E1 ?f ?m ?d ?fr ?ex ?w1] =>
        destruct (while_depth E1 f m d fr ex w1) as [[[]|e|] w2]
    end; exact Hext.
Qed.

End SameAnswers.

(** C7, as the code has it: a second run ends as the first one, with the
    same graph (edges, labels, URIs and depths), the same listing and the
    same figure, as soon as it has the same key, the service answers it as
    it answered the requests of the first run, in their order, the language
    detector answers it as it answered the calls of the first run, and the
    layout of a graph in dimension 3 with the seed 42 is the same: what the
    service would answer to other requests, what the detector would answer
    at later calls and what the layout is with other seeds have no part in
    the run. *)
Theorem same_answers_same_run {Coord} (E1 E2 : Env Coord) term_name max_depth :
  same_answers_in (snd (main E1 term_name max_depth world0)) E1 E2 ->
  main E1 term_name max_depth world0 = main E2 term_name max_depth world0.
Proof.
  intros Hsame. apply (main_agree E1 E2 _ Hsame). apply extends_refl.
Qed.

Lemma same_answers_same_run_witness :
  main env_first_run "S" 0 world0 = main env_second_run "S" 0 world0.
Proof.
  apply same_answers_same_run. split; [reflexivity|]. split; [|split].
  - intros past url rest Hlog. vm_compute in Hlog.
    destruct past as [|r1 [|r2 past]]; simpl in Hlog.
    + inversion Hlog; subst. reflexivity.
    + inversion Hlog; subst. reflexivity.
    + inversion Hlog as [[H1 H2 H3]]. destruct past; discriminate.
  - intros n text Hn. vm_compute in Hn.
    destruct n as [|n]; [reflexivity|].
    exfalso. apply le_S_n in Hn. inversion Hn.
  - intros g node. reflexivity.
Defined.
